(** * Inquiry analysis app: the cache, the rebuild and the ranked search

    A shallow embedding of [src/main.py]: the upload directory, the
    process-wide [cache], the pandas objects it points to, and the three
    request handlers that read and write them.  Library code (the Excel
    parser, the TF-IDF vectorizer, cosine similarity, the sort behind
    [DataFrame.sort_values]) is taken through the interface [Env]. *)

From Stdlib Require Import QArith.
From stdpp Require Import gmap strings list sorting.

Local Open Scope Z_scope.
Local Open Scope string_scope.

(** ** Cells, rows and data frames *)

(** A cell of a sheet: a missing value, text, or a number. *)
Inductive cell :=
  | NaN
  | Str (s : string)
  | Num (x : Q).

(** Python's [==] on two cells; a missing value equals nothing. *)
Definition cell_eqb (a b : cell) : bool :=
  match a, b with
  | Str s, Str t => bool_decide (s = t)
  | Num x, Num y => Qeq_bool x y
  | _, _ => false
  end.

Definition isna (c : cell) : bool :=
  match c with NaN => true | _ => false end.

(** A row keeps its index label; [read_excel] numbers rows from 0. *)
Record Row := mkRow { label : nat; values : list cell }.

Record DataFrame := mkDF { columns : list string; rows : list Row }.

(** Position of a column name, the first one when a name repeats. *)
Fixpoint col_pos (col : string) (cols : list string) : option nat :=
  match cols with
  | [] => None
  | c :: cs => if bool_decide (c = col) then Some O else S <$> col_pos col cs
  end.

(** [col in df.columns] *)
Definition has_column (col : string) (d : DataFrame) : bool :=
  bool_decide (col ∈ columns d).

Definition row_get (i : nat) (r : Row) : cell := nth i (values r) NaN.

(** [df[col]] as a list of cells, one per row. *)
Definition get_column (col : string) (d : DataFrame) : option (list cell) :=
  i ← col_pos col (columns d); Some (row_get i <$> rows d).

Definition row_set (i : nat) (v : cell) (r : Row) : Row :=
  mkRow (label r) (<[i:=v]> (values r)).

Definition row_push (v : cell) (r : Row) : Row :=
  mkRow (label r) (values r ++ [v]).

(** [df[col] = vals]: overwrites the column when it exists, appends it
    otherwise. *)
Definition set_column (col : string) (vals : list cell) (d : DataFrame)
  : DataFrame :=
  match col_pos col (columns d) with
  | Some i => mkDF (columns d) (zip_with (row_set i) vals (rows d))
  | None => mkDF (columns d ++ [col]) (zip_with row_push vals (rows d))
  end.

(** [df.fillna("", inplace=True)] on the frame's contents. *)
Definition fill_cell (c : cell) : cell :=
  match c with NaN => Str EmptyString | _ => c end.

Definition fillna (d : DataFrame) : DataFrame :=
  mkDF (columns d) ((λ r, mkRow (label r) (fill_cell <$> values r)) <$> rows d).

(** [Series.dropna()] *)
Definition dropna (s : list cell) : list cell :=
  filter (λ c, isna c = false) s.

(** [Series.unique()]: first occurrences, in order; missing values count
    as one value. *)
Definition same_cell (a b : cell) : bool :=
  match a, b with
  | NaN, NaN => true
  | _, _ => cell_eqb a b
  end.

Fixpoint unique_from (seen : list cell) (s : list cell) : list cell :=
  match s with
  | [] => []
  | c :: s' =>
      if existsb (same_cell c) seen then unique_from seen s'
      else c :: unique_from (c :: seen) s'
  end.

Definition unique (s : list cell) : list cell := unique_from [] s.

(** [df[df[col] == v]]: the rows whose cell equals the text [v]. *)
Definition filter_eq (i : nat) (v : string) (d : DataFrame) : DataFrame :=
  mkDF (columns d) (filter (λ r, cell_eqb (row_get i r) (Str v) = true) (rows d)).

(** [df.to_dict(orient="records")]: one dictionary per row, keyed by column. *)
Definition record := list (string * cell).

Definition to_record (cols : list string) (r : Row) : record :=
  zip cols (values r).

Definition to_dict (d : DataFrame) : list record :=
  to_record (columns d) <$> rows d.

Definition num_of_cell (c : cell) : option Q :=
  match c with Num x => Some x | _ => None end.

(** [df.empty]: no rows, or no columns. *)
Definition empty (d : DataFrame) : bool :=
  bool_decide (rows d = []) || bool_decide (columns d = []).

(** [df.head(n)] *)
Definition head (n : nat) (d : DataFrame) : DataFrame :=
  mkDF (columns d) (take n (rows d)).

(** Rows picked by position, as [DataFrame.take] does with an indexer. *)
Definition take_rows (idx : list nat) (d : DataFrame) : DataFrame :=
  mkDF (columns d) (omap (λ i, rows d !! i) idx).

(** ** Library interface *)

(** What [pd.read_excel] yields before an index is attached. *)
Definition Sheet : Type := list string * list (list cell).

(** The libraries the handlers call.  [argsort_desc] is the indexer that
    [sort_values(ascending=False)] computes with its default [kind]. *)
Class Env := {
  Vectorizer : Type;
  Vec : Type;
  read_excel : string → string + Sheet;
  astype_str : cell → string;
  fit_transform : list string → string + (Vectorizer * list Vec);
  transform : Vectorizer → string → Vec;
  cosine_similarity : Vec → Vec → Q;
  argsort_desc : list Q → list nat;
}.

(** What the libraries promise: a parsed sheet is rectangular, a fit
    yields one vector per document, and the indexer is a permutation that
    puts the keys in non-increasing order.  The order among equal keys is
    left open, as the default sort kind is not a stable one. *)
Class EnvLaws (E : Env) := {
  read_excel_rect bytes s :
    read_excel bytes = inr s → Forall (λ vs, length vs = length s.1) s.2;
  fit_transform_length docs v m :
    fit_transform docs = inr (v, m) → length m = length docs;
  argsort_desc_perm keys :
    argsort_desc keys ≡ₚ seq 0 (length keys);
  argsort_desc_sorted keys :
    StronglySorted (λ a b, (b <= a)%Q) (omap (λ i, keys !! i) (argsort_desc keys));
}.

(** ** Process state *)

Definition UPLOAD_DIR : string := "uploads".
Definition CATEGORY : string := "画面名称".
Definition ALL : string := "すべて".

(** [os.path.join(UPLOAD_DIR, f)] *)
Definition path_join (dir f : string) : string := dir +:+ "/" +:+ f.

(** An entry of the upload directory: name, change time, bytes. *)
Record File := mkFile { fname : string; ctime : Z; content : string }.

Definition loc := nat.

Inductive Event :=
  | EvRead (path : string)
  | EvFit.

Inductive exn :=
  | HTTPException (status_code : Z) (detail : string)
  | PyError (msg : string).

Inductive Result (A : Type) :=
  | Ok (a : A)
  | Raise (e : exn).
Arguments Ok {A} a.
Arguments Raise {A} e.

Section App.
Context `{E : Env}.

Record Cache := mkCache {
  filepath : option string;
  df : option loc;
  vectorizer : option Vectorizer;
  matrix : option (list Vec);
}.

Definition empty_cache : Cache := mkCache None None None None.

(** The files of the upload directory in [os.listdir] order, the global
    [config], the global [cache], the data frames alive in memory, and a
    log of the file reads and index fits performed so far (newest
    first).  The directory is taken to hold regular files only, which is
    all the handlers ever put there. *)
Record State := mkState {
  uploads : list File;
  config : gmap string (list string);
  cache : Cache;
  heap : gmap loc DataFrame;
  io_log : list Event;
}.

Definition default_config : gmap string (list string) :=
  {["search_columns" := []]}.

Definition set_cache (c : Cache) (st : State) : State :=
  mkState (uploads st) (config st) c (heap st) (io_log st).

Definition set_heap (h : gmap loc DataFrame) (st : State) : State :=
  mkState (uploads st) (config st) (cache st) h (io_log st).

Definition log_event (ev : Event) (st : State) : State :=
  mkState (uploads st) (config st) (cache st) (heap st) (ev :: io_log st).

Definition set_uploads (fs : list File) (st : State) : State :=
  mkState fs (config st) (cache st) (heap st) (io_log st).

(** ** A state and exception monad for the handlers *)

Definition M (A : Type) : Type := State → Result A * State.

Definition ret {A} (a : A) : M A := λ st, (Ok a, st).
Definition raise {A} (e : exn) : M A := λ st, (Raise e, st).
Definition bind {A B} (m : M A) (k : A → M B) : M B :=
  λ st, match m st with
        | (Ok a, st') => k a st'
        | (Raise e, st') => (Raise e, st')
        end.
Definition get : M State := λ st, (Ok st, st).
Definition modify (f : State → State) : M unit := λ st, (Ok tt, f st).

(** [try: m except Exception as e: h e] *)
Definition try_except {A} (m : M A) (h : exn → M A) : M A :=
  λ st, match m st with
        | (Ok a, st') => (Ok a, st')
        | (Raise e, st') => h e st'
        end.

Notation "'let*' x ':=' m 'in' k" := (bind m (λ x, k))
  (at level 10, x pattern, m at level 100, k at level 200, only parsing).
Notation "m '>>' k" := (bind m (λ _, k))
  (at level 100, k at level 200, right associativity, only parsing).

(** A new object, at an address nothing else holds. *)
Definition alloc (d : DataFrame) : M loc :=
  λ st, let l := fresh (dom (heap st)) in (Ok l, set_heap (<[l:=d]> (heap st)) st).

(** Reading through a reference. *)
Definition deref (l : loc) : M DataFrame :=
  λ st, match heap st !! l with
        | Some d => (Ok d, st)
        | None => (Raise (PyError "ReferenceError"), st)
        end.

(** In-place update of the object behind a reference. *)
Definition mutate (l : loc) (f : DataFrame → DataFrame) : M unit :=
  modify (λ st, set_heap (alter f l (heap st)) st).

(** Library calls that fail raise a Python exception carrying a message. *)
Definition lift_sum {A} (r : string + A) : M A :=
  match r with
  | inl msg => raise (PyError msg)
  | inr a => ret a
  end.

Definition lift_option {A} (msg : string) (o : option A) : M A :=
  match o with
  | Some a => ret a
  | None => raise (PyError msg)
  end.

(** ** [_ensure_data_is_cached] *)

(** [max(files, key=os.path.getctime)]: the first entry among those with
    the greatest change time. *)
Definition newer (best f : File) : File :=
  if (ctime best <? ctime f)%Z then f else best.

Definition latest_file (fs : list File) : option File :=
  match fs with
  | [] => None
  | f :: fs' => Some (foldl newer f fs')
  end.

(** [pd.read_excel] attaches a [RangeIndex]. *)
Definition frame_of_sheet (s : Sheet) : DataFrame :=
  mkDF s.1 (imap (λ i vs, mkRow i vs) s.2).

Definition dquote : string := String (Ascii.ascii_of_nat 34) EmptyString.

Definition MSG_NO_COLUMNS : string :=
  "設定ファイルに検索対象列が指定されていません。".

Definition MSG_MISSING_COLUMN (col : string) : string :=
  "設定ファイルで指定された列 " +:+ dquote +:+ col +:+ dquote +:+
  " がアップロードされたファイルに見つかりません。".

Definition MSG_UNEXPECTED (e : string) : string :=
  "データの読み込みまたはキャッシュ中に予期せぬエラーが発生しました: " +:+ e.

(** [for col in search_columns: if col not in df.columns: raise ...] *)
Fixpoint check_columns (cols : list string) (d : DataFrame) : M unit :=
  match cols with
  | [] => ret tt
  | col :: cols' =>
      if has_column col d then check_columns cols' d
      else raise (HTTPException 400 (MSG_MISSING_COLUMN col))
  end.

(** [df[search_columns].apply(lambda x: ' '.join(x.astype(str)), axis=1)] *)
Definition select (cols : list string) (d : DataFrame) (r : Row) : list cell :=
  omap (λ c, (λ i, row_get i r) <$> col_pos c (columns d)) cols.

Definition search_text (cols : list string) (d : DataFrame) : list cell :=
  (λ r, Str (String.concat " " (astype_str <$> select cols d r))) <$> rows d.

Definition texts_of (s : list cell) : list string :=
  (λ c, match c with Str t => t | _ => astype_str c end) <$> s.

(** The body of the [try] once the cache is found stale or empty. *)
Definition rebuild (f : File) : M unit :=
  let latest := path_join UPLOAD_DIR (fname f) in
  modify (log_event (EvRead latest)) >>
  let* sheet := lift_sum (read_excel (content f)) in
  let* d := alloc (frame_of_sheet sheet) in
  mutate d fillna >>
  let* st := get in
  let search_columns := default [] (config st !! "search_columns") in
  if bool_decide (search_columns = []) then
    raise (HTTPException 500 MSG_NO_COLUMNS)
  else
    let* d0 := deref d in
    check_columns search_columns d0 >>
    mutate d (λ x, set_column "search_text" (search_text search_columns x) x) >>
    let* d1 := deref d in
    let* col := lift_option "KeyError" (get_column "search_text" d1) in
    modify (log_event EvFit) >>
    let* vm := lift_sum (fit_transform (texts_of col)) in
    modify (set_cache (mkCache (Some latest) (Some d) (Some vm.1) (Some vm.2))).

(** The [except Exception as e] clause. *)
Definition on_error (e : exn) : M unit :=
  modify (set_cache empty_cache) >>
  match e with
  | HTTPException _ _ => raise e
  | PyError msg => raise (HTTPException 500 (MSG_UNEXPECTED msg))
  end.

Definition is_cached (c : Cache) : bool :=
  match df c with Some _ => true | None => false end.

(** [cache["filepath"] == latest_file and cache["df"] is not None] *)
Definition cache_hit (c : Cache) (latest : string) : bool :=
  bool_decide (filepath c = Some latest) && is_cached c.

Definition _ensure_data_is_cached : M unit :=
  try_except
    (let* st := get in
     match latest_file (uploads st) with
     | None => ret tt
     | Some f =>
         if cache_hit (cache st) (path_join UPLOAD_DIR (fname f)) then ret tt
         else rebuild f
     end)
    on_error.

(** ** The module's globals *)

(** The module as imported: [config] names no search column, the cache is
    empty; [fs] is what the upload directory holds. *)
Definition module_state (fs : list File) : State :=
  mkState fs default_config empty_cache ∅ [].

(** ** [upload_file] *)

Definition MSG_UPLOAD_OK (filename : string) : string :=
  filename +:+ " のアップロードが成功しました。".

Definition MSG_UPLOAD_FAILED : string :=
  "ファイルのアップロード中にエラーが発生しました。".

(** What the [with open(upload_path, "wb")] block comes to.  The path is
    [os.path.join(UPLOAD_DIR, file.filename)] and the file name is the
    client's, so where the path leads, and whether it can be opened and
    written, is for the operating system to say:
    - the bytes become the regular file [entry] of the upload directory
      (a plain file name is its own entry);
    - the bytes go to a path that is no entry of the directory, as with
      the name [../x.xlsx] or an absolute one;
    - [open] raises and nothing is written, as with the name [.], the
      empty name, or [sub/x.xlsx] where there is no directory [sub];
    - [open] creates or truncates the file [entry] of the directory, and
      the read or the write then raises with [part] of the bytes written. *)
Inductive Written :=
  | Stored (entry : string)
  | Elsewhere
  | Refused (msg : string)
  | Broken (entry part msg : string).

(** The directory once [data] has been written to its entry [name]: an
    existing entry is overwritten where it is listed, a new one is added to
    the listing (at its end here; the order of [os.listdir] is the file
    system's).  [now] is the time [os.path.getctime] reports for the entry
    from then on. *)
Fixpoint write_file (name data : string) (now : Z) (fs : list File)
  : list File :=
  match fs with
  | [] => [mkFile name now data]
  | f :: fs' =>
      if bool_decide (fname f = name) then mkFile name now data :: fs'
      else f :: write_file name data now fs'
  end.

Definition open_and_write (w : Written) (data : string) (now : Z) : M unit :=
  match w with
  | Stored entry =>
      modify (λ st, set_uploads (write_file entry data now (uploads st)) st)
  | Elsewhere => ret tt
  | Refused msg => raise (PyError msg)
  | Broken entry part msg =>
      modify (λ st, set_uploads (write_file entry part now (uploads st)) st) >>
      raise (PyError msg)
  end.

(** The cache is emptied once the block has completed; when the block
    raises, the handler answers 500 and the cache is left as it is. *)
Definition upload_file (filename data : string) (now : Z) (w : Written)
  : M string :=
  try_except
    (open_and_write w data now >>
     modify (set_cache empty_cache) >>
     ret (MSG_UPLOAD_OK filename))
    (λ _, raise (HTTPException 500 MSG_UPLOAD_FAILED)).

(** ** [get_functional_areas] *)

Definition MSG_NO_CATEGORY_FILE : string :=
  "'画面名称'列がファイルに見つかりません。".

Definition get_functional_areas : M (list cell) :=
  let* st := get in
  if bool_decide (uploads st = []) then ret []
  else
    _ensure_data_is_cached >>
    let* st := get in
    match df (cache st) with
    | None => raise (HTTPException 400 MSG_NO_CATEGORY_FILE)
    | Some l =>
        let* d := deref l in
        match get_column CATEGORY d with
        | None => raise (HTTPException 400 MSG_NO_CATEGORY_FILE)
        | Some col => ret (unique (dropna col))
        end
    end.

(** ** [search_inquiries] *)

Definition MSG_PLEASE_UPLOAD : string := "ファイルをアップロードしてください。".
Definition MSG_NOT_CACHED : string := "データがキャッシュされていません。".
Definition MSG_NO_CATEGORY : string := "'画面名称'列が見つかりません。".

(** [functional_area and functional_area != "すべて"] *)
Definition named_filter (functional_area : option string) : option string :=
  match functional_area with
  | Some a =>
      if bool_decide (a = EmptyString) then None
      else if bool_decide (a = ALL) then None
      else Some a
  | None => None
  end.

(** [matrix[filtered_indices]] *)
Definition slice_matrix (m : list Vec) (idx : list nat) : option (list Vec) :=
  mapM (λ i, m !! i) idx.

(** [df.sort_values(by=col, ascending=False)] *)
Definition sort_values (col : string) (d : DataFrame) : option DataFrame :=
  s ← get_column col d;
  keys ← mapM num_of_cell s;
  Some (take_rows (argsort_desc keys) d).

Definition search_inquiries (keywords : string) (functional_area : option string)
  : M (list record) :=
  let* st := get in
  if bool_decide (uploads st = []) then
    raise (HTTPException 400 MSG_PLEASE_UPLOAD)
  else
    _ensure_data_is_cached >>
    let* st := get in
    match df (cache st) with
    | None => raise (HTTPException 500 MSG_NOT_CACHED)
    | Some l =>
        let* d := deref l in
        let* copy := alloc d in
        let* target :=
          match named_filter functional_area with
          | Some a =>
              let* c := deref copy in
              match col_pos CATEGORY (columns c) with
              | Some i => alloc (filter_eq i a c)
              | None => raise (HTTPException 400 MSG_NO_CATEGORY)
              end
          | None => ret copy
          end in
        let* t := deref target in
        if empty t then ret []
        else
          let filtered_indices := label <$> rows t in
          let* m := lift_option "TypeError" (matrix (cache st)) in
          let* filtered_matrix :=
            lift_option "IndexError" (slice_matrix m filtered_indices) in
          let* v := lift_option "AttributeError" (vectorizer (cache st)) in
          let query_vec := transform v keywords in
          let cosine_similarities :=
            cosine_similarity query_vec <$> filtered_matrix in
          mutate target (set_column "similarity" (Num <$> cosine_similarities)) >>
          let* t' := deref target in
          let* sorted := lift_option "TypeError" (sort_values "similarity" t') in
          ret (to_dict (head 100 sorted))
    end.

(** [health_check] *)
Definition health_check : M string := ret "ok".

End App.

(** ** A concrete library instance

    A small stand-in for the libraries, used to run the handlers on actual
    inputs.  A file's bytes name one of a few fixed sheets; a document's
    vector is its text, and its score against a query is 1 when the text
    starts with the query and 0 otherwise.  The indexer is computed the way
    pandas and numpy compute it without vector instructions. *)

(** *** The sort behind [sort_values]

    numpy's [argsort] with [kind='quicksort'], in its portable form: an
    array [a] of positions into the keys [v] is sorted in place.  While
    [pr - pl] exceeds 16 the segment [pl..pr] is partitioned around the
    median of its first, middle and last key, the larger part is put on a
    stack and the smaller one is carried on with; a shorter segment is
    insertion-sorted.  Each partition uses up one unit of a depth budget of
    twice the bit length of the array's size; numpy heap-sorts a segment
    that is taken up with the budget exhausted, which is not followed
    here: the outcome is then [None]. *)

Definition less (x y : Q) : bool := negb (Qle_bool y x).

(** [v[a[p]]] *)
Definition key_at (v : list Q) (a : list nat) (p : nat) : Q :=
  default 0%Q (i ← a !! p; v !! i).

(** [INTP_SWAP(a[i], a[j])] *)
Definition swap (i j : nat) (a : list nat) : list nat :=
  match a !! i, a !! j with
  | Some x, Some y => <[i:=y]> (<[j:=x]> a)
  | _, _ => a
  end.

(** [if (less(v[a[i]], v[a[j]])) INTP_SWAP(a[i], a[j])] *)
Definition swap_if_less (v : list Q) (i j : nat) (a : list nat) : list nat :=
  if less (key_at v a i) (key_at v a j) then swap i j a else a.

(** [do { ++pi; } while (less(v[a[pi]], vp))] *)
Fixpoint scan_up (fuel : nat) (v : list Q) (vp : Q) (a : list nat) (pi : nat)
  : nat :=
  match fuel with
  | O => S pi
  | S fuel' =>
      if less (key_at v a (S pi)) vp then scan_up fuel' v vp a (S pi) else S pi
  end.

(** [do { --pj; } while (less(vp, v[a[pj]]))] *)
Fixpoint scan_down (fuel : nat) (v : list Q) (vp : Q) (a : list nat) (pj : nat)
  : nat :=
  match fuel with
  | O => pred pj
  | S fuel' =>
      if less vp (key_at v a (pred pj)) then scan_down fuel' v vp a (pred pj)
      else pred pj
  end.

(** The two scans, and a swap, until they meet. *)
Fixpoint cross (fuel : nat) (v : list Q) (vp : Q) (pi pj : nat) (a : list nat)
  : list nat * nat :=
  match fuel with
  | O => (a, pi)
  | S fuel' =>
      let pi' := scan_up (length a) v vp a pi in
      let pj' := scan_down (length a) v vp a pj in
      if bool_decide (pj' ≤ pi')%nat then (a, pi')
      else cross fuel' v vp pi' pj' (swap pi' pj' a)
  end.

(** One partition of the segment [pl..pr]; the place where the pivot ends
    up is returned with the array. *)
Definition qs_partition (v : list Q) (pl pr : nat) (a : list nat)
  : list nat * nat :=
  let pm := (pl + (pr - pl) / 2)%nat in
  let a := swap_if_less v pm pl a in
  let a := swap_if_less v pr pm a in
  let a := swap_if_less v pm pl a in
  let vp := key_at v a pm in
  let a := swap pm (pr - 1) a in
  let '(a, pi) := cross (length a) v vp pl (pr - 1)%nat a in
  (swap pi (pr - 1) a, pi).

(** [while (pj > pl && less(vp, v[a[pk]])) { a[pj--] = a[pk--]; }] *)
Fixpoint sift (v : list Q) (vp : Q) (pl pj : nat) (a : list nat)
  : list nat * nat :=
  match pj with
  | O => (a, O)
  | S pk =>
      if bool_decide (pl < pj)%nat && less vp (key_at v a pk)
      then sift v vp pl pk (<[pj := default O (a !! pk)]> a)
      else (a, pj)
  end.

Definition insert_at (v : list Q) (pl : nat) (a : list nat) (pi : nat)
  : list nat :=
  let vi := default O (a !! pi) in
  let '(a', pj) := sift v (default 0%Q (v !! vi)) pl pi a in
  <[pj := vi]> a'.

(** The insertion sort of the segment [pl..pr]; it moves no key past an
    equal one. *)
Definition insertion_sort (v : list Q) (pl pr : nat) (a : list nat) : list nat :=
  foldl (insert_at v pl) a (seq (S pl) (pr - pl)).

Fixpoint aquicksort_loop (fuel : nat) (v : list Q) (pl pr : nat) (cdepth : Z)
    (stack : list (nat * nat * Z)) (a : list nat) : option (list nat) :=
  match fuel with
  | O => None
  | S fuel' =>
      if bool_decide (16 < pr - pl)%nat then
        let '(a', pi) := qs_partition v pl pr a in
        if bool_decide (pi - pl < pr - pi)%nat then
          aquicksort_loop fuel' v pl (pi - 1) (cdepth - 1)
            ((S pi, pr, cdepth - 1) :: stack) a'
        else
          aquicksort_loop fuel' v (S pi) pr (cdepth - 1)
            ((pl, (pi - 1)%nat, cdepth - 1) :: stack) a'
      else
        let a' := insertion_sort v pl pr a in
        match stack with
        | [] => Some a'
        | (l, r, d) :: stack' =>
            if (d <? 0)%Z then None else aquicksort_loop fuel' v l r d stack' a'
        end
  end.

Definition aquicksort (v : list Q) : option (list nat) :=
  let n := length v in
  aquicksort_loop (2 * n + 2) v 0 (n - 1) (2 * Z.log2 (Z.of_nat n)) []
    (seq 0 n).

(** pandas' [nargsort] with [ascending=False]: the keys and their
    positions are reversed, sorted in ascending order, and the outcome is
    reversed again. *)
Definition nargsort (keys : list Q) : option (list nat) :=
  let n := length keys in
  p ← aquicksort (reverse keys);
  Some (reverse ((λ i, n - 1 - i)%nat <$> p)).

(** A merge sort of the numbered keys, to fall back on. *)
Definition key_ge (a b : nat * Q) : Prop := Qle_bool b.2 a.2 = true.

#[global] Instance key_ge_dec : RelDecision key_ge :=
  λ a b, decide (Qle_bool b.2 a.2 = true).

Definition indexed (keys : list Q) : list (nat * Q) := imap pair keys.

Definition merge_argsort (keys : list Q) : list nat :=
  fst <$> merge_sort key_ge (indexed keys).

(** Whether [p] lists every position of [keys] once, with the keys it
    points to in non-increasing order. *)
Fixpoint non_increasing (l : list Q) : bool :=
  match l with
  | [] => true
  | x :: l' => forallb (λ y, Qle_bool y x) l' && non_increasing l'
  end.

Definition is_argsort_desc (keys : list Q) (p : list nat) : bool :=
  bool_decide (merge_sort le p = seq 0 (length keys)) &&
  non_increasing (omap (λ i, keys !! i) p).

(** The indexer of the instance: what [nargsort] computes, checked. *)
Definition toy_argsort (keys : list Q) : list nat :=
  match nargsort keys with
  | Some p => if is_argsort_desc keys p then p else merge_argsort keys
  | None => merge_argsort keys
  end.

Definition sheet_two : Sheet :=
  (["title"; "body"; "category"; CATEGORY],
   [[Str "login fails"; Str "cannot sign in"; Str "Auth"; Str "Auth"];
    [Str "billing issue"; Str "invoice wrong"; Str "Billing"; Str "Billing"]]).

Definition sheet_gap : Sheet :=
  (["title"; CATEGORY],
   [[Str "login fails"; Str "Auth"];
    [Str "login page blank"; NaN];
    [Str "login loops"; Str "Auth"]]).

(** Three tickets with the same title: whatever the vectorizer, their
    [search_text] and so their scores are equal. *)
Definition sheet_dup : Sheet :=
  (["id"; "title"],
   [[Str "T-1"; Str "login fails"];
    [Str "T-2"; Str "login fails"];
    [Str "T-3"; Str "login fails"]]).

Definition sheet_plain : Sheet :=
  (["title"], [[Str "export hangs"]; [Str "export is slow"]]).

(** Twenty tickets under two titles in turn: whatever the vectorizer, the
    ten tickets of a title have the same [search_text] and so the same
    score. *)
Definition sheet_mix : Sheet :=
  (["id"; "title"],
   [[Str "T-01"; Str "login fails"];
    [Str "T-02"; Str "payment error"];
    [Str "T-03"; Str "login fails"];
    [Str "T-04"; Str "payment error"];
    [Str "T-05"; Str "login fails"];
    [Str "T-06"; Str "payment error"];
    [Str "T-07"; Str "login fails"];
    [Str "T-08"; Str "payment error"];
    [Str "T-09"; Str "login fails"];
    [Str "T-10"; Str "payment error"];
    [Str "T-11"; Str "login fails"];
    [Str "T-12"; Str "payment error"];
    [Str "T-13"; Str "login fails"];
    [Str "T-14"; Str "payment error"];
    [Str "T-15"; Str "login fails"];
    [Str "T-16"; Str "payment error"];
    [Str "T-17"; Str "login fails"];
    [Str "T-18"; Str "payment error"];
    [Str "T-19"; Str "login fails"];
    [Str "T-20"; Str "payment error"]]).

Definition toy_read_excel (bytes : string) : string + Sheet :=
  if bool_decide (bytes = "two") then inr sheet_two
  else if bool_decide (bytes = "gap") then inr sheet_gap
  else if bool_decide (bytes = "dup") then inr sheet_dup
  else if bool_decide (bytes = "plain") then inr sheet_plain
  else if bool_decide (bytes = "mix") then inr sheet_mix
  else inl "File is not a zip file".

Definition toy_str (c : cell) : string :=
  match c with
  | NaN => "nan"
  | Str s => s
  | Num _ => "0"
  end.

Definition toy_fit (docs : list string) : string + (unit * list string) :=
  if bool_decide (docs = []) then inl "empty vocabulary" else inr (tt, docs).

Definition toy_cosine (q d : string) : Q :=
  if String.prefix q d then 1%Q else 0%Q.

Definition toy_env : Env := {|
  Vectorizer := unit;
  Vec := string;
  read_excel := toy_read_excel;
  astype_str := toy_str;
  fit_transform := toy_fit;
  transform := λ _ q, q;
  cosine_similarity := toy_cosine;
  argsort_desc := toy_argsort;
|}.

(** Running a handler for its state, and for its answer. *)
Definition exec `{E : Env} {A} (m : M A) (st : State) : State := (m st).2.
Definition eval `{E : Env} {A} (m : M A) (st : State) : Result A := (m st).1.

(** A process that has started: [config.json] named the search columns
    [cols], the upload directory is empty, nothing is cached. *)
Definition boot `{E : Env} (cols : list string) : State :=
  mkState [] {["search_columns" := cols]} empty_cache ∅ [].

(** ** Vocabulary of the statements *)

Section Vocabulary.
Context `{E : Env}.

(** The data frame a rebuild caches for a sheet: missing values filled,
    [search_text] derived from the configured columns. *)
Definition built (cols : list string) (s : Sheet) : DataFrame :=
  let d := fillna (frame_of_sheet s) in
  set_column "search_text" (search_text cols d) d.

(** The first configured column the data frame lacks. *)
Definition first_missing (cols : list string) (d : DataFrame) : option string :=
  find (λ c, negb (has_column c d)) cols.

(** Columns and row of a frame once [similarity] has been assigned. *)
Definition sim_columns (cols : list string) : list string :=
  match col_pos "similarity" cols with
  | Some _ => cols
  | None => cols ++ ["similarity"]
  end.

Definition attach (cols : list string) (s : Q) (r : Row) : Row :=
  match col_pos "similarity" cols with
  | Some i => row_set i (Num s) r
  | None => row_push (Num s) r
  end.

(** The record a returned row becomes. *)
Definition result_of (cols : list string) (sr : Q * Row) : record :=
  to_record (sim_columns cols) (attach cols sr.1 sr.2).

(** The scored rows in the order the indexer of their scores puts them. *)
Definition ranked (sims : list Q) (rs : list Row) : list (Q * Row) :=
  omap (λ i, zip sims rs !! i) (argsort_desc sims).

(** A field of a returned dictionary. *)
Definition field (col : string) (r : record) : option cell :=
  snd <$> find (λ kv, bool_decide (kv.1 = col)) r.

(** The rows a search ranks: those of the named category, or all of them. *)
Definition candidates (functional_area : option string) (d : DataFrame)
  : option DataFrame :=
  match named_filter functional_area with
  | Some a => i ← col_pos CATEGORY (columns d); Some (filter_eq i a d)
  | None => Some d
  end.

(** Requests that read, and a run of them. *)
Inductive Request :=
  | Search (keywords : string) (functional_area : option string)
  | Areas.

Definition serve (q : Request) (st : State) : State :=
  match q with
  | Search k a => exec (search_inquiries k a) st
  | Areas => exec get_functional_areas st
  end.

Definition serve_all (qs : list Request) (st : State) : State :=
  foldl (λ s q, serve q s) st qs.

(** What a process does after startup: it takes uploads and serves read
    requests. *)
Inductive Step :=
  | Upload (filename data : string) (now : Z) (w : Written)
  | Read (q : Request).

Definition step (x : Step) (st : State) : State :=
  match x with
  | Upload filename data now w => exec (upload_file filename data now w) st
  | Read q => serve q st
  end.

Definition run (xs : list Step) (st : State) : State :=
  foldl (λ s x, step x s) st xs.

(** Every row has one cell per column. *)
Definition rect (d : DataFrame) : Prop :=
  Forall (λ r, length (values r) = length (columns d)) (rows d).

(** A cached table is alive, rectangular and has a column, comes with its
    vectorizer and matrix, and its row labels are the matrix's row numbers. *)
Definition cache_wf (st : State) : Prop :=
  ∀ l, df (cache st) = Some l →
    ∃ d v m, heap st !! l = Some d ∧ vectorizer (cache st) = Some v ∧
             matrix (cache st) = Some m ∧ rect d ∧ columns d ≠ [] ∧
             label <$> rows d = seq 0 (length m).

(** What a rebuild from file [f] comes to, with its states written out. *)
Definition rebuild_outcome (f : File) (st : State) : Result unit * State :=
  let latest := path_join UPLOAD_DIR (fname f) in
  let l := fresh (dom (heap st)) in
  let st1 := log_event (EvRead latest) st in
  match read_excel (content f) with
  | inl msg => (Raise (PyError msg), st1)
  | inr s =>
      let d0 := fillna (frame_of_sheet s) in
      let st2 := set_heap (<[l:=d0]> (heap st)) st1 in
      let cols := default [] (config st !! "search_columns") in
      if bool_decide (cols = []) then
        (Raise (HTTPException 500 MSG_NO_COLUMNS), st2)
      else
        match first_missing cols d0 with
        | Some c => (Raise (HTTPException 400 (MSG_MISSING_COLUMN c)), st2)
        | None =>
            let st3 := set_heap (<[l:=built cols s]> (heap st)) st1 in
            match get_column "search_text" (built cols s) with
            | None => (Raise (PyError "KeyError"), st3)
            | Some col =>
                match fit_transform (texts_of col) with
                | inl msg => (Raise (PyError msg), log_event EvFit st3)
                | inr vm =>
                    (Ok tt,
                     set_cache (mkCache (Some latest) (Some l) (Some vm.1) (Some vm.2))
                       (log_event EvFit st3))
                end
            end
        end
  end.

(** The exception the [except] clause lets out. *)
Definition as_http (e : exn) : exn :=
  match e with
  | HTTPException _ _ => e
  | PyError msg => HTTPException 500 (MSG_UNEXPECTED msg)
  end.

(** The answer of the ranking steps of a search over the rows [t], read off
    the cache entry [c]. *)
Definition rank (c : Cache) (keywords : string) (t : DataFrame)
  : Result (list record) :=
  match matrix c with
  | None => Raise (PyError "TypeError")
  | Some m =>
      match slice_matrix m (label <$> rows t) with
      | None => Raise (PyError "IndexError")
      | Some fm =>
          match vectorizer c with
          | None => Raise (PyError "AttributeError")
          | Some v =>
              let sims := cosine_similarity (transform v keywords) <$> fm in
              match sort_values "similarity"
                      (set_column "similarity" (Num <$> sims) t) with
              | None => Raise (PyError "TypeError")
              | Some sorted => Ok (to_dict (head 100 sorted))
              end
          end
      end
  end.

(** The answer of a search once the cached table [d] is in hand. *)
Definition search_result (c : Cache) (keywords : string)
    (functional_area : option string) (d : DataFrame) : Result (list record) :=
  match candidates functional_area d with
  | None => Raise (HTTPException 400 MSG_NO_CATEGORY)
  | Some t => if empty t then Ok [] else rank c keywords t
  end.

(** The configured search columns, as the rebuild reads them. *)
Definition search_columns (st : State) : list string :=
  default [] (config st !! "search_columns").

(** File [f] is the newest upload, and a cached table, if there is one, is
    the table built from [f]'s bytes. *)
Definition serving (f : File) (st : State) : Prop :=
  latest_file (uploads st) = Some f ∧
  ∀ l, df (cache st) = Some l →
    ∃ s, read_excel (content f) = inr s ∧
         heap st !! l = Some (built (search_columns st) s).

(** The path and change time of the newest upload. *)
Definition current_source_identity (st : State) : option (string * Z) :=
  (λ f, (path_join UPLOAD_DIR (fname f), ctime f)) <$> latest_file (uploads st).

End Vocabulary.

(** ** Sample runs

    States reached by uploading one of the fixed sheets, or bytes that are
    no sheet at all, into a process that has just started. *)

Definition after_upload (E : Env) (cols : list string) (name data : string)
    (now : Z) : State :=
  exec (upload_file name data now (Stored name)) (boot cols).

Definition junk_file : File := mkFile "a.xlsx" 10 "junk".
Definition junk_state : State :=
  after_upload toy_env ["title"] "a.xlsx" "junk" 10.

Definition two_file : File := mkFile "a.xlsx" 10 "two".
Definition two_state : State :=
  after_upload toy_env ["title"; "body"] "a.xlsx" "two" 10.


(** After the first read request has filled the cache from that upload. *)
Definition two_cached : State := exec _ensure_data_is_cached two_state.

(** The file then rewritten in place on disk, with other bytes and a later
    change time, without passing through [upload_file]. *)
Definition two_rewritten : State :=
  set_uploads [mkFile "a.xlsx" 20 "plain"] two_cached.


Definition gap_state : State :=
  after_upload toy_env ["title"] "b.xlsx" "gap" 10.

(** The one record a search for [login] within [Billing] returns. *)
Definition billing_record : record :=
  [("title", Str "billing issue"); ("body", Str "invoice wrong");
   ("category", Str "Billing"); (CATEGORY, Str "Billing");
   ("search_text", Str "billing issue invoice wrong"); ("similarity", Num 0)].

(** A first upload, searched once so that the cache holds its table. *)
Definition first_served : State :=
  exec (search_inquiries "login" None)
    (after_upload toy_env ["title"] "a.xlsx" "two" 10).

(** The sheet of equal titles, uploaded, and the table a rebuild makes of
    it. *)
Definition dup_state : State :=
  after_upload toy_env ["title"] "c.xlsx" "dup" 10.

Definition dup_table : DataFrame := @built toy_env ["title"] sheet_dup.

(** The matrix fitted over it: one vector, its text, per row. *)
Definition dup_matrix : list (@Vec toy_env) :=
  ["login fails"; "login fails"; "login fails"].

(** After a first read request has filled the cache with it. *)
Definition dup_cached : State := exec _ensure_data_is_cached dup_state.

(** The sheet of two titles in turn, uploaded, and the table a rebuild
    makes of it. *)
Definition mix_state : State :=
  after_upload toy_env ["title"] "d.xlsx" "mix" 10.

Definition mix_table : DataFrame := @built toy_env ["title"] sheet_mix.

(** Its rows, in their original order, each with its score against
    [login]; the text scored is the row's [search_text], its third cell. *)
Definition mix_scored : list (Q * Row) :=
  (λ r, (toy_cosine "login" (toy_str (row_get 2 r)), r)) <$> rows mix_table.

(** ** The ranking as the specification words it

    "Sort descending by score; ties broken by original row order (stable
    sort)", then at most the top 100: an insertion sort that puts a row
    before the first later row whose score is not greater. *)

Fixpoint insert_desc (x : Q * Row) (l : list (Q * Row)) : list (Q * Row) :=
  match l with
  | [] => [x]
  | y :: l' => if Qle_bool y.1 x.1 then x :: l else y :: insert_desc x l'
  end.

Definition stable_descending (scored : list (Q * Row)) : list (Q * Row) :=
  foldr insert_desc [] scored.

Definition spec_ranking (cols : list string) (scored : list (Q * Row))
  : list record :=
  result_of cols <$> take 100 (stable_descending scored).

(** ** Vocabulary of the further properties *)

(** The entry of a directory listing with a given name. *)
Definition find_file (name : string) (fs : list File) : option File :=
  find (λ f, bool_decide (fname f = name)) fs.

(** No cell of the frame is a missing value. *)
Definition no_missing (d : DataFrame) : Prop :=
  Forall (λ r, Forall (λ c, isna c = false) (values r)) (rows d).

(** The table the cache points to. *)
Definition cached_table `{E : Env} (st : State) : option DataFrame :=
  l ← df (cache st); heap st !! l.

(** A cached table is alive and has the property [P]. *)
Definition cache_holds `{E : Env} (P : DataFrame → Prop) (st : State) : Prop :=
  ∀ l, df (cache st) = Some l → ∃ d, heap st !! l = Some d ∧ P d.

(** What a rebuild does to the cells: none is missing, and the derived
    column is there. *)
Definition normalised (d : DataFrame) : Prop :=
  no_missing d ∧ "search_text" ∈ columns d.

(** A position of [s] holds a first occurrence: its cell is not missing,
    equals none of the cells [seen] and none of the cells before it. *)
Definition first_occurrence (seen s : list cell) (i : nat) : Prop :=
  ∃ c, s !! i = Some c ∧ isna c = false ∧
       existsb (same_cell c) seen = false ∧
       ∀ j c', (j < i)%nat → s !! j = Some c' → same_cell c c' = false.

(** A process that took the sheet with a gap and listed its categories. *)
Definition gap_listed : State :=
  @run toy_env [Upload "b.xlsx" "gap" 10 (Stored "b.xlsx"); Read Areas]
    (boot ["title"]).

(** Three files, the last two written at the same time. *)
Definition tied_files : list File :=
  [mkFile "a.xlsx" 5 "two"; mkFile "b.xlsx" 9 "gap"; mkFile "c.xlsx" 9 "plain"].

(** * Properties *)

Section Facts.
Context `{E : Env}.

Implicit Types (st : State) (d : DataFrame) (f : File).

(** ** Objects in memory *)

Lemma heap_alloc_old (h : gmap loc DataFrame) d l x :
  h !! l = Some x → <[fresh (dom h) := d]> h !! l = Some x.
Proof.
  intros Hl. rewrite lookup_insert_ne; [done|].
  intros <-. pose proof (is_fresh (dom h)) as Hf.
  apply not_elem_of_dom in Hf. congruence.
Qed.

(** ** The newest file *)

Lemma ensure_no_files st :
  uploads st = [] → _ensure_data_is_cached st = (Ok tt, st).
Proof.
  intros H. unfold _ensure_data_is_cached, try_except, bind, get.
  by rewrite H.
Qed.

Lemma ensure_hit st f :
  latest_file (uploads st) = Some f →
  cache_hit (cache st) (path_join UPLOAD_DIR (fname f)) = true →
  _ensure_data_is_cached st = (Ok tt, st).
Proof.
  intros Hf Hh. unfold _ensure_data_is_cached, try_except, bind, get.
  by rewrite Hf, Hh.
Qed.

Lemma ensure_miss st f :
  latest_file (uploads st) = Some f →
  cache_hit (cache st) (path_join UPLOAD_DIR (fname f)) = false →
  _ensure_data_is_cached st = try_except (rebuild f) on_error st.
Proof.
  intros Hf Hh. unfold _ensure_data_is_cached, try_except, bind, get.
  by rewrite Hf, Hh.
Qed.

(** ** The rebuild *)

Lemma check_columns_run cols d st :
  check_columns cols d st =
    (match first_missing cols d with
     | Some c => Raise (HTTPException 400 (MSG_MISSING_COLUMN c))
     | None => Ok tt
     end, st).
Proof.
  unfold first_missing. induction cols as [|c cols IH]; simpl; [done|].
  destruct (has_column c d); simpl; [apply IH | done].
Qed.

Lemma rebuild_eq f st : rebuild f st = rebuild_outcome f st.
Proof.
  unfold rebuild, rebuild_outcome, bind, mutate, modify, lift_sum, lift_option,
    alloc, deref, get, raise, ret. simpl.
  destruct (read_excel (content f)) as [msg|s]; simpl; [done|].
  case_bool_decide as Hc; simpl; [by rewrite alter_insert_eq|].
  rewrite alter_insert_eq, lookup_insert_eq. simpl.
  rewrite check_columns_run.
  destruct (first_missing _ _) as [c|]; simpl; [done|].
  rewrite alter_insert_eq, lookup_insert_eq. simpl.
  fold (built (default [] (config st !! "search_columns")) s).
  destruct (get_column _ _) as [col|]; simpl; [|done].
  destruct (fit_transform _) as [msg|vm]; simpl; done.
Qed.

(** ** Data frames *)

Lemma col_pos_Some col cols i :
  col_pos col cols = Some i → cols !! i = Some col.
Proof.
  revert i. induction cols as [|c cols IH]; intros i; simpl; [done|].
  case_bool_decide as Hc; [intros [= <-]; by subst|].
  destruct (col_pos col cols) as [j|]; simpl; [|done].
  intros [= <-]. by apply IH.
Qed.

Lemma col_pos_None col cols : col_pos col cols = None ↔ col ∉ cols.
Proof.
  induction cols as [|c cols IH]; simpl; [split; [intros _; apply not_elem_of_nil|done]|].
  case_bool_decide as Hc.
  - subst. split; [done|]. intros H. destruct H. left.
  - rewrite fmap_None, IH, not_elem_of_cons. split; [by split|by intros [_ ?]].
Qed.

Lemma col_pos_lt col cols i : col_pos col cols = Some i → (i < length cols)%nat.
Proof. intros H. eapply lookup_lt_Some, col_pos_Some, H. Qed.

Lemma col_pos_inj c1 c2 cols i :
  col_pos c1 cols = Some i → col_pos c2 cols = Some i → c1 = c2.
Proof. intros H1%col_pos_Some H2%col_pos_Some. congruence. Qed.

Lemma col_pos_app_l col cols extra i :
  col_pos col cols = Some i → col_pos col (cols ++ extra) = Some i.
Proof.
  revert i. induction cols as [|c cols IH]; intros i; simpl; [done|].
  case_bool_decide; [done|].
  destruct (col_pos col cols) as [j|] eqn:Hj; simpl; [|done].
  intros [= <-]. by rewrite (IH j).
Qed.

Lemma col_pos_app_new col cols :
  col_pos col cols = None → col_pos col (cols ++ [col]) = Some (length cols).
Proof.
  induction cols as [|c cols IH]; simpl.
  - intros _. by rewrite bool_decide_eq_true_2.
  - case_bool_decide as Hc; [done|]. intros Hn%fmap_None. by rewrite IH.
Qed.

Lemma has_column_col_pos col d :
  has_column col d = true ↔ is_Some (col_pos col (columns d)).
Proof.
  unfold has_column. rewrite bool_decide_eq_true.
  destruct (col_pos col (columns d)) as [i|] eqn:Hi.
  - split; [eauto|]. intros _. eapply list_elem_of_lookup_2, col_pos_Some, Hi.
  - apply col_pos_None in Hi. split; [done|]. by intros [? ?].
Qed.

Lemma rect_fillna d : rect d → rect (fillna d).
Proof.
  unfold rect, fillna. simpl. rewrite Forall_fmap. intros H.
  eapply Forall_impl; [exact H|]. intros r Hr. simpl. by rewrite length_fmap.
Qed.

Lemma rect_frame_of_sheet (s : Sheet) :
  Forall (λ vs, length vs = length s.1) s.2 → rect (frame_of_sheet s).
Proof.
  unfold rect, frame_of_sheet. simpl. intros H.
  apply Forall_lookup_2. intros i r Hi.
  apply list_lookup_imap_Some in Hi as (vs & Hvs & ->). simpl.
  eapply Forall_lookup_1 in H; eauto.
Qed.

Lemma rect_filter_eq i a d : rect d → rect (filter_eq i a d).
Proof.
  unfold rect, filter_eq. simpl. rewrite !Forall_forall.
  intros H r Hr%list_elem_of_filter. apply H, Hr.
Qed.

Lemma Forall_zip_with_rows (g : cell → Row → Row) (P Q : Row → Prop) :
  (∀ v r, P r → Q (g v r)) →
  ∀ vals rs, Forall P rs → Forall Q (zip_with g vals rs).
Proof.
  intros Hg vals rs H. revert vals.
  induction H as [|r rs Hr Hrs IH]; intros [|v vals]; simpl; constructor; auto.
Qed.

Lemma fmap_zip_with_rows {B} (h : Row → B) (g : cell → Row → Row)
    (k : cell → B) (P : Row → Prop) :
  (∀ v r, P r → h (g v r) = k v) →
  ∀ vals rs, Forall P rs → length vals = length rs →
    h <$> zip_with g vals rs = k <$> vals.
Proof.
  intros Hg vals rs H. revert vals.
  induction H as [|r rs Hr Hrs IH]; intros [|v vals]; simpl; try done.
  intros [= Hlen]. f_equal; auto.
Qed.

Lemma rect_set_column col vals d : rect d → rect (set_column col vals d).
Proof.
  unfold rect, set_column. intros H.
  destruct (col_pos col (columns d)) as [i|]; simpl.
  - eapply Forall_zip_with_rows; [|exact H]. intros v r Hr. simpl.
    simpl in Hr. by rewrite length_insert.
  - eapply Forall_zip_with_rows; [|exact H]. intros v r Hr. simpl.
    rewrite !length_app. simpl in *. lia.
Qed.

Lemma get_set_column col vals d :
  rect d → length vals = length (rows d) →
  get_column col (set_column col vals d) = Some vals.
Proof.
  unfold rect, get_column, set_column. intros H Hlen.
  destruct (col_pos col (columns d)) as [i|] eqn:Hi; simpl.
  - rewrite Hi. simpl. f_equal. apply col_pos_lt in Hi.
    rewrite <-(list_fmap_id vals) at 2.
    eapply fmap_zip_with_rows; [|exact H|exact Hlen].
    intros v r Hr. simpl in Hr. unfold row_get, row_set. simpl.
    apply nth_lookup_Some, list_lookup_insert_eq. lia.
  - rewrite (col_pos_app_new _ _ Hi). simpl. f_equal.
    rewrite <-(list_fmap_id vals) at 2.
    eapply fmap_zip_with_rows; [|exact H|exact Hlen].
    intros v r Hr. simpl in Hr. unfold row_get, row_push. simpl.
    apply nth_lookup_Some. rewrite lookup_app_r by lia.
    by rewrite Hr, Nat.sub_diag.
Qed.

Lemma labels_set_column col vals d :
  length vals = length (rows d) →
  label <$> rows (set_column col vals d) = label <$> rows d.
Proof.
  unfold set_column. intros Hlen.
  destruct (col_pos col (columns d)) as [i|]; simpl.
  - revert vals Hlen. induction (rows d) as [|r rs IH]; intros [|v vals]; simpl;
      try done. intros [= Hlen]. f_equal. by apply IH.
  - revert vals Hlen. induction (rows d) as [|r rs IH]; intros [|v vals]; simpl;
      try done. intros [= Hlen]. f_equal. by apply IH.
Qed.

Lemma length_search_text cols d : length (search_text cols d) = length (rows d).
Proof. unfold search_text. by rewrite length_fmap. Qed.

Lemma labels_frame_of_sheet (s : Sheet) :
  label <$> rows (frame_of_sheet s) = seq 0 (length s.2).
Proof.
  unfold frame_of_sheet. simpl. rewrite fmap_imap.
  rewrite (imap_ext _ (λ i _, id i)) by done.
  by rewrite imap_seq_0, list_fmap_id.
Qed.

Lemma rows_fillna_length d : length (rows (fillna d)) = length (rows d).
Proof. unfold fillna. simpl. by rewrite length_fmap. Qed.

Lemma labels_fillna d : label <$> rows (fillna d) = label <$> rows d.
Proof. unfold fillna. simpl. rewrite <-list_fmap_compose. done. Qed.

Lemma labels_built cols (s : Sheet) :
  label <$> rows (built cols s) = seq 0 (length s.2).
Proof.
  unfold built. rewrite labels_set_column by apply length_search_text.
  by rewrite labels_fillna, labels_frame_of_sheet.
Qed.

Lemma rect_built cols (s : Sheet) :
  Forall (λ vs, length vs = length s.1) s.2 → rect (built cols s).
Proof. intros H. by apply rect_set_column, rect_fillna, rect_frame_of_sheet. Qed.

Lemma search_text_built cols (s : Sheet) :
  Forall (λ vs, length vs = length s.1) s.2 →
  get_column "search_text" (built cols s) =
    Some (search_text cols (fillna (frame_of_sheet s))).
Proof.
  intros H. apply get_set_column; [|apply length_search_text].
  by apply rect_fillna, rect_frame_of_sheet.
Qed.

Lemma columns_built_ne cols (s : Sheet) : columns (built cols s) ≠ [].
Proof.
  unfold built, set_column.
  destruct (col_pos _ _) as [i|] eqn:Hi; simpl.
  - apply col_pos_lt in Hi. simpl in Hi. intros Hnil. rewrite Hnil in Hi.
    simpl in Hi. lia.
  - intros Hnil. apply (f_equal length) in Hnil.
    rewrite length_app in Hnil. simpl in Hnil. lia.
Qed.

(** ** Outcomes of [_ensure_data_is_cached] *)

Lemma on_error_run e st :
  on_error e st = (Raise (as_http e), set_cache empty_cache st).
Proof. unfold on_error, bind, modify, raise. by destruct e. Qed.

Lemma ensure_rebuild st f :
  latest_file (uploads st) = Some f →
  cache_hit (cache st) (path_join UPLOAD_DIR (fname f)) = false →
  _ensure_data_is_cached st =
    match rebuild_outcome f st with
    | (Ok a, st') => (Ok a, st')
    | (Raise e, st') => (Raise (as_http e), set_cache empty_cache st')
    end.
Proof.
  intros Hf Hh. rewrite (ensure_miss _ _ Hf Hh). unfold try_except.
  rewrite rebuild_eq. destruct (rebuild_outcome f st) as [[a|e] st']; [done|].
  apply on_error_run.
Qed.

Lemma latest_file_None (fs : list File) : latest_file fs = None → fs = [].
Proof. by destruct fs. Qed.

(** The three ways a call can go. *)
Lemma ensure_cases st :
  (uploads st = [] ∧ _ensure_data_is_cached st = (Ok tt, st)) ∨
  (∃ f, latest_file (uploads st) = Some f ∧
        cache_hit (cache st) (path_join UPLOAD_DIR (fname f)) = true ∧
        _ensure_data_is_cached st = (Ok tt, st)) ∨
  (∃ f, latest_file (uploads st) = Some f ∧
        cache_hit (cache st) (path_join UPLOAD_DIR (fname f)) = false ∧
        _ensure_data_is_cached st =
          match rebuild_outcome f st with
          | (Ok a, st') => (Ok a, st')
          | (Raise e, st') => (Raise (as_http e), set_cache empty_cache st')
          end).
Proof.
  destruct (latest_file (uploads st)) as [f|] eqn:Hf.
  - destruct (cache_hit (cache st) (path_join UPLOAD_DIR (fname f))) eqn:Hh.
    + right; left. exists f. eauto using ensure_hit.
    + right; right. exists f. eauto using ensure_rebuild.
  - left. apply latest_file_None in Hf. eauto using ensure_no_files.
Qed.

(** A rebuild leaves the directory, the configuration and every object
    that was alive as they were. *)
Lemma rebuild_outcome_frame f st r st' :
  rebuild_outcome f st = (r, st') →
  uploads st' = uploads st ∧ config st' = config st ∧
  (∀ l x, heap st !! l = Some x → heap st' !! l = Some x) ∧
  (∀ e, r = Raise e → cache st' = cache st).
Proof.
  unfold rebuild_outcome.
  repeat (case_match; simpl); intros [= <- <-]; simpl;
    repeat split; auto using heap_alloc_old; done.
Qed.

Lemma ensure_frame st r st' :
  _ensure_data_is_cached st = (r, st') →
  uploads st' = uploads st ∧ config st' = config st ∧
  (∀ l x, heap st !! l = Some x → heap st' !! l = Some x).
Proof.
  destruct (ensure_cases st) as [[_ H]|[(f & _ & _ & H)|(f & _ & _ & H)]];
    rewrite H; [by intros [= <- <-]..|].
  destruct (rebuild_outcome f st) as [[a|e] st1] eqn:Hr;
    apply rebuild_outcome_frame in Hr as (Hu & Hc & Hh & _);
    intros [= <- <-]; simpl; auto.
Qed.

Lemma ensure_raise st e st' :
  _ensure_data_is_cached st = (Raise e, st') →
  cache st' = empty_cache ∧ ∃ code detail, e = HTTPException code detail.
Proof.
  destruct (ensure_cases st) as [[_ H]|[(f & _ & _ & H)|(f & _ & _ & H)]];
    rewrite H; [done..|].
  destruct (rebuild_outcome f st) as [[a|e0] st1]; [done|].
  intros [= <- <-]. split; [done|]. destruct e0; simpl; eauto.
Qed.

Lemma rebuild_outcome_log f st r st' :
  rebuild_outcome f st = (r, st') →
  let latest := path_join UPLOAD_DIR (fname f) in
  io_log st' = EvRead latest :: io_log st ∨
  io_log st' = EvFit :: EvRead latest :: io_log st.
Proof.
  unfold rebuild_outcome.
  repeat (case_match; simpl); intros [= <- <-]; simpl; auto.
Qed.

Lemma rebuild_outcome_ok f st st' :
  rebuild_outcome f st = (Ok tt, st') →
  let latest := path_join UPLOAD_DIR (fname f) in
  let cols := default [] (config st !! "search_columns") in
  let l := fresh (dom (heap st)) in
  ∃ s col vm,
    read_excel (content f) = inr s ∧ cols ≠ [] ∧
    first_missing cols (fillna (frame_of_sheet s)) = None ∧
    get_column "search_text" (built cols s) = Some col ∧
    fit_transform (texts_of col) = inr vm ∧
    st' = mkState (uploads st) (config st)
            (mkCache (Some latest) (Some l) (Some vm.1) (Some vm.2))
            (<[l:=built cols s]> (heap st))
            (EvFit :: EvRead latest :: io_log st).
Proof.
  unfold rebuild_outcome. simpl.
  destruct (read_excel (content f)) as [msg|s]; [done|].
  case_bool_decide as Hc; [done|].
  destruct (first_missing _ _) as [c|] eqn:Hm; [done|].
  destruct (get_column _ _) as [col|] eqn:Hg; [|done].
  destruct (fit_transform _) as [msg|vm] eqn:Hfit; [done|].
  intros [= <-]. exists s, col, vm. done.
Qed.

(** ** Outcomes of [search_inquiries] *)

Lemma search_no_files keywords functional_area st :
  uploads st = [] →
  search_inquiries keywords functional_area st =
    (Raise (HTTPException 400 MSG_PLEASE_UPLOAD), st).
Proof.
  intros H. unfold search_inquiries, bind, get, raise.
  by rewrite bool_decide_eq_true_2.
Qed.

Lemma search_ensure_raise keywords functional_area st e st1 :
  uploads st ≠ [] →
  _ensure_data_is_cached st = (Raise e, st1) →
  search_inquiries keywords functional_area st = (Raise e, st1).
Proof.
  intros H He. unfold search_inquiries, bind, get, raise.
  rewrite bool_decide_eq_false_2 by done. by rewrite He.
Qed.

Lemma search_not_cached keywords functional_area st st1 :
  uploads st ≠ [] →
  _ensure_data_is_cached st = (Ok tt, st1) →
  df (cache st1) = None →
  search_inquiries keywords functional_area st =
    (Raise (HTTPException 500 MSG_NOT_CACHED), st1).
Proof.
  intros H He Hd. unfold search_inquiries, bind, get, raise.
  rewrite bool_decide_eq_false_2 by done. by rewrite He, Hd.
Qed.

(** With a table in the cache, a search answers [search_result] of it and
    changes nothing but objects of its own. *)
Lemma search_run keywords functional_area st st1 l d :
  uploads st ≠ [] →
  _ensure_data_is_cached st = (Ok tt, st1) →
  df (cache st1) = Some l →
  heap st1 !! l = Some d →
  ∃ h, search_inquiries keywords functional_area st =
         (search_result (cache st1) keywords functional_area d, set_heap h st1) ∧
       ∀ l0 x, heap st1 !! l0 = Some x → h !! l0 = Some x.
Proof.
  intros H He Hd Hl.
  unfold search_inquiries, search_result, candidates, rank, bind, get, raise,
    ret, deref, alloc, mutate, modify, lift_option.
  rewrite bool_decide_eq_false_2 by done. rewrite He, Hd, Hl. simpl.
  set (lc := fresh (dom (heap st1))).
  set (h1 := <[lc:=d]> (heap st1)).
  assert (Hh1 : ∀ l0 x, heap st1 !! l0 = Some x → h1 !! l0 = Some x)
    by (intros; by apply heap_alloc_old).
  destruct (named_filter functional_area) as [a|]; simpl.
  - unfold h1 at 1. rewrite lookup_insert_eq. simpl.
    destruct (col_pos CATEGORY (columns d)) as [i|]; simpl; [|eauto].
    set (lt := fresh (dom h1)).
    set (h2 := <[lt:=filter_eq i a d]> h1).
    assert (Hh2 : ∀ l0 x, heap st1 !! l0 = Some x → h2 !! l0 = Some x)
      by (intros; by apply heap_alloc_old, Hh1).
    unfold h2 at 1. rewrite lookup_insert_eq. simpl.
    destruct (empty _); simpl; [eauto|].
    destruct (matrix (cache st1)) as [m|]; simpl; [|eauto].
    destruct (slice_matrix m _) as [fm|]; simpl; [|eauto].
    destruct (vectorizer (cache st1)) as [v|]; simpl; [|eauto].
    unfold h2 at 1. rewrite alter_insert_eq, lookup_insert_eq. simpl.
    assert (∀ x0 l0 x, heap st1 !! l0 = Some x →
              <[lt:=x0]> h1 !! l0 = Some x)
      by (intros; by apply heap_alloc_old, Hh1).
    unfold h2. rewrite alter_insert_eq.
    destruct (sort_values _ _); simpl; eauto.
  - unfold h1 at 1. rewrite lookup_insert_eq. simpl.
    destruct (empty _); simpl; [eauto|].
    destruct (matrix (cache st1)) as [m|]; simpl; [|eauto].
    destruct (slice_matrix m _) as [fm|]; simpl; [|eauto].
    destruct (vectorizer (cache st1)) as [v|]; simpl; [|eauto].
    unfold h1 at 1. rewrite alter_insert_eq, lookup_insert_eq. simpl.
    assert (∀ x0 l0 x, heap st1 !! l0 = Some x →
              <[lc:=x0]> (heap st1) !! l0 = Some x)
      by (intros; by apply heap_alloc_old).
    unfold h1. rewrite alter_insert_eq.
    destruct (sort_values _ _); simpl; eauto.
Qed.

(** ** Outcomes of [get_functional_areas] *)

Lemma areas_no_files st :
  uploads st = [] → get_functional_areas st = (Ok [], st).
Proof.
  intros H. unfold get_functional_areas, bind, get, ret.
  by rewrite bool_decide_eq_true_2.
Qed.

Lemma areas_ensure_raise st e st1 :
  uploads st ≠ [] →
  _ensure_data_is_cached st = (Raise e, st1) →
  get_functional_areas st = (Raise e, st1).
Proof.
  intros H He. unfold get_functional_areas, bind, get.
  rewrite bool_decide_eq_false_2 by done. by rewrite He.
Qed.

Lemma areas_run st st1 :
  uploads st ≠ [] →
  _ensure_data_is_cached st = (Ok tt, st1) →
  get_functional_areas st =
    (match df (cache st1) with
     | None => Raise (HTTPException 400 MSG_NO_CATEGORY_FILE)
     | Some l =>
         match heap st1 !! l with
         | None => Raise (PyError "ReferenceError")
         | Some d =>
             match get_column CATEGORY d with
             | None => Raise (HTTPException 400 MSG_NO_CATEGORY_FILE)
             | Some col => Ok (unique (dropna col))
             end
         end
     end, st1).
Proof.
  intros H He. unfold get_functional_areas, bind, get, raise, ret, deref.
  rewrite bool_decide_eq_false_2 by done. rewrite He. simpl.
  destruct (df (cache st1)) as [l|]; [|done].
  destruct (heap st1 !! l) as [d|]; [|done].
  by destruct (get_column CATEGORY d).
Qed.

(** Serving a read request changes the state as the cache check does, up
    to objects of the request's own. *)
Lemma serve_ensure q st :
  ∃ h, serve q st = set_heap h (exec _ensure_data_is_cached st) ∧
       ∀ l x, heap (exec _ensure_data_is_cached st) !! l = Some x →
              h !! l = Some x.
Proof.
  unfold exec.
  destruct (decide (uploads st = [])) as [Hu|Hu].
  { exists (heap st). rewrite (ensure_no_files _ Hu). simpl. split; [|done].
    destruct q as [k a|]; simpl; unfold exec.
    - rewrite (search_no_files _ _ _ Hu). by destruct st.
    - rewrite (areas_no_files _ Hu). by destruct st. }
  destruct (_ensure_data_is_cached st) as [[[]|e] st1] eqn:He; simpl.
  - destruct q as [k a|]; simpl; unfold exec.
    + destruct (df (cache st1)) as [l|] eqn:Hd.
      * destruct (heap st1 !! l) as [d|] eqn:Hl.
        -- destruct (search_run k a st st1 l d Hu He Hd Hl) as (h & -> & Hh).
           eauto.
        -- exists (heap st1). split; [|done].
           unfold search_inquiries, bind, get, raise, deref.
           rewrite bool_decide_eq_false_2 by done. rewrite He, Hd, Hl.
           by destruct st1.
      * rewrite (search_not_cached _ _ _ _ Hu He Hd).
        exists (heap st1). by destruct st1.
    + rewrite (areas_run _ _ Hu He). exists (heap st1). by destruct st1.
  - exists (heap st1). split; [|done].
    destruct q as [k a|]; simpl; unfold exec.
    + rewrite (search_ensure_raise _ _ _ _ _ Hu He). by destruct st1.
    + rewrite (areas_ensure_raise _ _ _ Hu He). by destruct st1.
Qed.

(** ** Ranking *)

Lemma columns_set_similarity sims t :
  columns (set_column "similarity" (Num <$> sims) t) = sim_columns (columns t).
Proof.
  unfold set_column, sim_columns.
  by destruct (col_pos "similarity" (columns t)).
Qed.

Lemma rows_set_similarity sims t :
  rows (set_column "similarity" (Num <$> sims) t) =
    (λ sr, attach (columns t) sr.1 sr.2) <$> zip sims (rows t).
Proof.
  unfold set_column, attach.
  destruct (col_pos "similarity" (columns t)) as [i|]; simpl;
    rewrite zip_with_fmap_l, zip_with_zip;
    apply list_fmap_ext; by intros ? [??].
Qed.

Lemma sort_values_rows col t s :
  sort_values col t = Some s → columns s = columns t ∧ rows s ⊆ rows t.
Proof.
  unfold sort_values. intros H.
  destruct (get_column col t) as [c|]; simpl in H; [|done].
  destruct (mapM num_of_cell c) as [keys|]; simpl in H; [|done].
  injection H as <-. split; [done|]. simpl.
  intros r (i & _ & Hi)%list_elem_of_omap.
  by eapply list_elem_of_lookup_2.
Qed.

(** Whatever the indexer, a returned record is a row of the ranked table
    with its score attached. *)
Lemma rank_sound c keywords t rs :
  rank c keywords t = Ok rs →
  ∀ rec, rec ∈ rs →
    ∃ s r, r ∈ rows t ∧ rec = result_of (columns t) (s, r).
Proof.
  unfold rank. intros H rec Hrec.
  destruct (matrix c) as [m|]; [|done].
  destruct (slice_matrix m _) as [fm|]; [|done].
  destruct (vectorizer c) as [v|]; [|done].
  destruct (sort_values _ _) as [sorted|] eqn:Hs; [|done].
  injection H as <-.
  apply sort_values_rows in Hs as [Hcols Hrows].
  unfold to_dict, head in Hrec. simpl in Hrec.
  apply list_elem_of_fmap in Hrec as (r' & -> & Hr').
  apply subseteq_take, Hrows in Hr'.
  rewrite rows_set_similarity in Hr'.
  apply list_elem_of_fmap in Hr' as ([s r] & -> & Hsr).
  apply elem_of_zip_r in Hsr. exists s, r. split; [done|].
  unfold result_of. by rewrite Hcols, columns_set_similarity.
Qed.

Lemma filter_eq_rows i a d r :
  r ∈ rows (filter_eq i a d) → r ∈ rows d ∧ row_get i r = Str a.
Proof.
  unfold filter_eq. simpl. intros [Hc Hr]%list_elem_of_filter.
  split; [done|]. destruct (row_get i r) as [|s|x]; simpl in Hc; try done.
  apply bool_decide_eq_true in Hc. by subst.
Qed.

(** A returned record comes from a row of the cached table, and from one
    of the named category when the filter names one. *)
Lemma search_result_sound c keywords functional_area d rs :
  search_result c keywords functional_area d = Ok rs →
  ∀ rec, rec ∈ rs →
    ∃ s r, r ∈ rows d ∧ rec = result_of (columns d) (s, r) ∧
      ∀ a, named_filter functional_area = Some a →
        ∃ i, col_pos CATEGORY (columns d) = Some i ∧ row_get i r = Str a.
Proof.
  unfold search_result, candidates. intros H rec Hrec.
  destruct (named_filter functional_area) as [a|]; simpl in H.
  - destruct (col_pos CATEGORY (columns d)) as [i|] eqn:Hi; simpl in H; [|done].
    destruct (empty _); [injection H as <-; by apply elem_of_nil in Hrec|].
    destruct (rank_sound _ _ _ _ H rec Hrec) as (s & r & Hr & ->).
    apply filter_eq_rows in Hr as [Hr Ha].
    exists s, r. repeat split; [done|]. intros ? [= <-]. eauto.
  - destruct (empty _); [injection H as <-; by apply elem_of_nil in Hrec|].
    destruct (rank_sound _ _ _ _ H rec Hrec) as (s & r & Hr & ->).
    exists s, r. by repeat split.
Qed.

Lemma field_to_record col cols r i :
  col_pos col cols = Some i → (i < length (values r))%nat →
  field col (to_record cols r) = Some (row_get i r).
Proof.
  unfold field, to_record, row_get. generalize (values r) as vs.
  revert i. induction cols as [|c cols IH]; intros i vs; simpl; [done|].
  case_bool_decide as Hc.
  - intros [= <-] Hlen. destruct vs as [|v vs]; simpl in *; [lia|].
    by rewrite bool_decide_eq_true_2.
  - destruct (col_pos col cols) as [j|] eqn:Hj; simpl; [|done].
    intros [= <-] Hlen. destruct vs as [|v vs]; simpl in *; [lia|].
    rewrite bool_decide_eq_false_2 by done. apply (IH j); [done|lia].
Qed.

Lemma row_get_Str_lt i r a : row_get i r = Str a → (i < length (values r))%nat.
Proof.
  unfold row_get. intros H. destruct (decide (i < length (values r))%nat); [done|].
  rewrite nth_overflow in H by lia. done.
Qed.

Lemma category_not_similarity : CATEGORY ≠ "similarity".
Proof. done. Qed.

(** Attaching the score leaves the category field as it was. *)
Lemma field_category_result cols s r i a :
  col_pos CATEGORY cols = Some i → row_get i r = Str a →
  field CATEGORY (result_of cols (s, r)) = Some (Str a).
Proof.
  intros Hi Ha. pose proof (row_get_Str_lt _ _ _ Ha) as Hlt.
  unfold result_of, sim_columns, attach. simpl.
  destruct (col_pos "similarity" cols) as [j|] eqn:Hj.
  - assert (j ≠ i) as Hne.
    { intros ->. by destruct category_not_similarity; eapply col_pos_inj. }
    rewrite (field_to_record _ _ _ i Hi); simpl; [|by rewrite length_insert].
    rewrite <-Ha. unfold row_get, row_set. simpl. f_equal.
    by rewrite !nth_lookup, list_lookup_insert_ne.
  - rewrite (field_to_record _ _ _ i (col_pos_app_l _ _ _ _ Hi)); simpl;
      [|rewrite length_app; lia].
    rewrite <-Ha. unfold row_get, row_push. simpl. f_equal.
    by rewrite app_nth1.
Qed.

Lemma StronglySorted_fmap_inv {A B} (g : A → B) (R1 : relation A)
    (R2 : relation B) (l : list A) :
  (∀ x y, R2 (g x) (g y) → R1 x y) →
  StronglySorted R2 (g <$> l) → StronglySorted R1 l.
Proof.
  intros Hg. induction l as [|x l IH]; csimpl; [constructor|].
  intros H. apply StronglySorted_inv in H as [Hl Hx].
  constructor; [by apply IH|].
  rewrite Forall_fmap in Hx. eapply Forall_impl; [exact Hx|].
  intros y Hy. by apply Hg.
Qed.

Lemma omap_lookup_seq {A} (l : list A) :
  omap (λ i, l !! i) (seq 0 (length l)) = l.
Proof.
  induction l as [|x l IH] using rev_ind; [done|].
  rewrite length_app. simpl. rewrite Nat.add_1_r, seq_S, omap_app. simpl.
  rewrite lookup_app_r, Nat.sub_diag by lia. simpl. f_equal.
  rewrite <-IH at 2. apply list_omap_ext, Forall2_same_length_lookup.
  split; [done|]. intros i a b Ha Hb. assert (a = b) as <- by congruence.
  apply lookup_seq in Ha as [-> Hlt]. simpl.
  by rewrite lookup_app_l by lia.
Qed.

Lemma slice_matrix_length (m : list Vec) idx fm :
  slice_matrix m idx = Some fm → length fm = length idx.
Proof. intros H. symmetry. by eapply length_mapM. Qed.

Lemma slice_matrix_in_range (m : list Vec) idx :
  idx ⊆ seq 0 (length m) → is_Some (slice_matrix m idx).
Proof.
  intros H. apply mapM_is_Some_2, Forall_forall. intros i Hi. simpl.
  apply H, elem_of_seq in Hi. apply lookup_lt_is_Some. lia.
Qed.

Lemma mapM_num_of_cell sims : mapM num_of_cell (Num <$> sims) = Some sims.
Proof. apply mapM_fmap_Some. done. Qed.

Lemma wf_boot cols : cache_wf (boot cols).
Proof. intros l Hl. done. Qed.

Lemma wf_empty st : df (cache st) = None → cache_wf st.
Proof. intros H l Hl. congruence. Qed.

Lemma wf_set_heap st h :
  (∀ l x, heap st !! l = Some x → h !! l = Some x) →
  cache_wf st → cache_wf (set_heap h st).
Proof.
  intros Hh Hwf l Hl. destruct (Hwf l Hl) as (d & v & m & Hd & ?).
  exists d, v, m. split; [by apply Hh|done].
Qed.

Lemma candidates_rect functional_area d t :
  candidates functional_area d = Some t → rect d → rect t.
Proof.
  unfold candidates. destruct (named_filter functional_area) as [a|].
  - destruct (col_pos CATEGORY (columns d)) as [i|]; simpl; [|done].
    intros [= <-]. apply rect_filter_eq.
  - by intros [= <-].
Qed.

Lemma candidates_rows functional_area d t :
  candidates functional_area d = Some t →
  columns t = columns d ∧ rows t ⊆ rows d.
Proof.
  unfold candidates. destruct (named_filter functional_area) as [a|].
  - destruct (col_pos CATEGORY (columns d)) as [i|]; simpl; [|done].
    intros [= <-]. split; [done|]. intros r Hr.
    by apply filter_eq_rows in Hr as [? _].
  - by intros [= <-].
Qed.

(** With the pieces in place the ranking steps return the first hundred
    of [ranked]. *)
Lemma rank_eq c keywords t m v fm :
  matrix c = Some m → vectorizer c = Some v →
  slice_matrix m (label <$> rows t) = Some fm → rect t →
  rank c keywords t =
    Ok (result_of (columns t) <$>
          take 100 (ranked (cosine_similarity (transform v keywords) <$> fm)
                           (rows t))).
Proof.
  intros Hm Hv Hfm Hrect. unfold rank. rewrite Hm, Hfm, Hv.
  set (sims := cosine_similarity (transform v keywords) <$> fm).
  assert (length sims = length (rows t)) as Hlen.
  { unfold sims. rewrite length_fmap, (slice_matrix_length _ _ _ Hfm).
    by rewrite length_fmap. }
  unfold sort_values.
  rewrite get_set_column by (by rewrite ?length_fmap). simpl.
  rewrite mapM_num_of_cell. simpl. f_equal.
  unfold to_dict, head, take_rows. simpl.
  rewrite columns_set_similarity, rows_set_similarity.
  assert (omap (λ i, ((λ sr, attach (columns t) sr.1 sr.2) <$>
                        zip sims (rows t)) !! i) (argsort_desc sims) =
          (λ sr, attach (columns t) sr.1 sr.2) <$> ranked sims (rows t)) as ->.
  { unfold ranked. rewrite list_fmap_omap.
    apply list_omap_ext, Forall2_same_length_lookup. split; [done|].
    intros i a b Ha Hb. assert (a = b) as <- by congruence.
    by rewrite list_lookup_fmap. }
  rewrite <-fmap_take, <-list_fmap_compose.
  apply list_fmap_ext. by intros ? [??].
Qed.

(** ** What the library laws add *)

Section Lawful.
Context {L : EnvLaws E}.

Lemma ranked_perm sims (rs : list Row) :
  length sims = length rs → ranked sims rs ≡ₚ zip sims rs.
Proof.
  intros Hlen. unfold ranked. rewrite argsort_desc_perm.
  replace (length sims) with (length (zip sims rs))
    by (rewrite length_zip; lia).
  by rewrite omap_lookup_seq.
Qed.

Lemma ranked_sorted sims (rs : list Row) :
  length sims = length rs →
  StronglySorted (λ a b : Q * Row, (b.1 <= a.1)%Q) (ranked sims rs).
Proof.
  intros Hlen.
  apply (StronglySorted_fmap_inv fst _ (λ a b, (b <= a)%Q)); [done|].
  unfold ranked. rewrite list_fmap_omap.
  erewrite list_omap_ext; [apply (argsort_desc_sorted sims)|].
  apply Forall2_same_length_lookup. split; [done|].
  intros i a b Ha Hb. assert (a = b) as <- by congruence.
  rewrite <-list_lookup_fmap, fst_zip by lia. done.
Qed.

Lemma rebuild_outcome_wf f st st' :
  rebuild_outcome f st = (Ok tt, st') → cache_wf st'.
Proof.
  intros H. apply rebuild_outcome_ok in H
    as (s & col & vm & Hs & Hc & Hm & Hcol & Hfit & ->).
  pose proof (read_excel_rect _ _ Hs) as Hrect.
  intros l [= <-]. simpl.
  exists (built (default [] (config st !! "search_columns")) s), vm.1, vm.2.
  rewrite lookup_insert_eq. repeat split;
    [by apply rect_built|apply columns_built_ne|].
  rewrite labels_built. f_equal.
  destruct vm as [v m]. apply fit_transform_length in Hfit. simpl. rewrite Hfit.
  rewrite search_text_built in Hcol by done. injection Hcol as <-.
  unfold texts_of. rewrite length_fmap, length_search_text.
  by rewrite rows_fillna_length, <-(length_fmap label), labels_frame_of_sheet,
    length_seq.
Qed.

Lemma ensure_wf st r st' :
  cache_wf st → _ensure_data_is_cached st = (r, st') → cache_wf st'.
Proof.
  intros Hwf.
  destruct (ensure_cases st) as [[_ H]|[(f & _ & _ & H)|(f & _ & _ & H)]];
    rewrite H; [by intros [= <- <-]..|].
  destruct (rebuild_outcome f st) as [[[]|e] st1] eqn:Hr; intros [= <- <-].
  - by eapply rebuild_outcome_wf.
  - by apply wf_empty.
Qed.

Lemma serve_wf q st : cache_wf st → cache_wf (serve q st).
Proof.
  intros Hwf. destruct (serve_ensure q st) as (h & -> & Hh).
  apply wf_set_heap; [done|]. unfold exec.
  destruct (_ensure_data_is_cached st) as [r st1] eqn:He.
  by eapply ensure_wf.
Qed.

Lemma upload_wf filename data now w st :
  cache_wf st → cache_wf (exec (upload_file filename data now w) st).
Proof.
  intros Hwf. destruct w; [by apply wf_empty..|exact Hwf|exact Hwf].
Qed.

(** Every state a process reaches has a well-formed cache. *)
Lemma run_wf xs st : cache_wf st → cache_wf (run xs st).
Proof.
  unfold run. revert st. induction xs as [|x xs IH]; intros st Hwf; simpl;
    [done|].
  apply IH. destruct x; simpl; [by apply upload_wf|by apply serve_wf].
Qed.

Lemma reachable_wf cols xs : cache_wf (run xs (boot cols)).
Proof. apply run_wf, wf_boot. Qed.

(** Rows of a well-formed cache always find their vectors. *)
Lemma slice_candidates (m : list Vec) functional_area d t :
  label <$> rows d = seq 0 (length m) →
  candidates functional_area d = Some t →
  is_Some (slice_matrix m (label <$> rows t)).
Proof.
  intros Hlab Ht. apply slice_matrix_in_range. rewrite <-Hlab.
  apply candidates_rows in Ht as [_ Hsub].
  intros i (r & -> & Hr)%list_elem_of_fmap. apply list_elem_of_fmap_2, Hsub, Hr.
Qed.

End Lawful.

(** ** Uploads and the newest file *)

(** The four outcomes of an upload. *)
Lemma upload_run filename data now w st :
  upload_file filename data now w st =
    match w with
    | Stored entry =>
        (Ok (MSG_UPLOAD_OK filename),
         mkState (write_file entry data now (uploads st)) (config st)
           empty_cache (heap st) (io_log st))
    | Elsewhere => (Ok (MSG_UPLOAD_OK filename), set_cache empty_cache st)
    | Refused _ => (Raise (HTTPException 500 MSG_UPLOAD_FAILED), st)
    | Broken entry part _ =>
        (Raise (HTTPException 500 MSG_UPLOAD_FAILED),
         set_uploads (write_file entry part now (uploads st)) st)
    end.
Proof. by destruct w. Qed.

Lemma write_file_elem name data now (fs : list File) f :
  f ∈ write_file name data now fs → f = mkFile name now data ∨ f ∈ fs.
Proof.
  induction fs as [|g fs IH]; simpl.
  - intros ->%list_elem_of_singleton. by left.
  - case_bool_decide.
    + intros [->|Hf]%elem_of_cons; [by left|]. right. by right.
    + intros [->|Hf]%elem_of_cons; [right; by left|].
      destruct (IH Hf) as [->|?]; [by left|]. right. by right.
Qed.

Lemma write_file_new name data now (fs : list File) :
  mkFile name now data ∈ write_file name data now fs.
Proof.
  induction fs as [|g fs IH]; simpl; [by left|].
  case_bool_decide; [by left|by right].
Qed.

Lemma foldl_newer_max (b : File) fs g :
  g ∈ b :: fs →
  (∀ f, f ∈ b :: fs → f = g ∨ (ctime f < ctime g)%Z) →
  foldl newer b fs = g.
Proof.
  revert b. induction fs as [|f fs IH]; intros b Hg Hmax; simpl.
  - by apply list_elem_of_singleton in Hg.
  - apply IH.
    + apply elem_of_cons in Hg as [->|Hg].
      { apply elem_of_cons. left. unfold newer.
        destruct (Z.ltb_spec (ctime b) (ctime f)); [|done].
        destruct (Hmax f) as [->|Hlt]; [right; left|done|lia]. }
      apply elem_of_cons in Hg as [->|Hg]; [|by right].
      apply elem_of_cons. left. unfold newer.
      destruct (Z.ltb_spec (ctime b) (ctime f)); [done|].
      destruct (Hmax b) as [->|Hlt]; [left|done|lia].
    + intros f' [->|Hf']%elem_of_cons.
      * apply Hmax. unfold newer. case_match; [right; left|left].
      * apply Hmax. right. by right.
Qed.

Lemma latest_file_write name data now (fs : list File) :
  Forall (λ f, (ctime f < now)%Z) fs →
  latest_file (write_file name data now fs) = Some (mkFile name now data).
Proof.
  intros Hold. pose proof (write_file_new name data now fs) as Hnew.
  assert (∀ f, f ∈ write_file name data now fs →
            f = mkFile name now data ∨ (ctime f < now)%Z) as Hmax.
  { intros f [->|Hf]%write_file_elem; [by left|].
    right. by eapply Forall_forall in Hold. }
  destruct (write_file name data now fs) as [|b fs']; [by apply elem_of_nil in Hnew|].
  simpl. f_equal. by apply foldl_newer_max.
Qed.

(** ** A cache that serves the newest file *)

Lemma serving_upload filename entry data now st :
  Forall (λ f, (ctime f < now)%Z) (uploads st) →
  serving (mkFile entry now data)
    (exec (upload_file filename data now (Stored entry)) st).
Proof.
  intros Hold. unfold exec. rewrite upload_run. simpl.
  split; [by apply latest_file_write|]. done.
Qed.

Lemma serving_ensure f st r st' :
  serving f st → _ensure_data_is_cached st = (r, st') → serving f st'.
Proof.
  intros [Hf Hc].
  destruct (ensure_cases st) as [[_ H]|[(g & _ & _ & H)|(g & Hg & _ & H)]];
    rewrite H; [by intros [= <- <-]..|].
  assert (g = f) as -> by congruence.
  destruct (rebuild_outcome f st) as [[[]|e] st1] eqn:Hr; intros [= <- <-].
  - apply rebuild_outcome_ok in Hr
      as (s & col & vm & Hs & _ & _ & _ & _ & ->).
    split; [done|]. intros l [= <-]. exists s. split; [done|]. simpl.
    unfold search_columns. simpl. apply lookup_insert_eq.
  - apply rebuild_outcome_frame in Hr as (Hu & _).
    split; [simpl; congruence|]. done.
Qed.

Lemma serving_set_heap f st h :
  (∀ l x, heap st !! l = Some x → h !! l = Some x) →
  serving f st → serving f (set_heap h st).
Proof.
  intros Hh [Hf Hc]. split; [done|]. intros l Hl.
  destruct (Hc l Hl) as (s & Hs & Hd). exists s. split; [done|]. by apply Hh.
Qed.

Lemma serving_serve f q st : serving f st → serving f (serve q st).
Proof.
  intros Hs. destruct (serve_ensure q st) as (h & -> & Hh).
  apply serving_set_heap; [done|]. unfold exec.
  destruct (_ensure_data_is_cached st) as [r st1] eqn:He.
  by eapply serving_ensure.
Qed.

Lemma serving_serve_all f qs st : serving f st → serving f (serve_all qs st).
Proof.
  unfold serve_all. revert st. induction qs as [|q qs IH]; intros st Hs; simpl;
    [done|]. by apply IH, serving_serve.
Qed.

Lemma serve_config q st : config (serve q st) = config st.
Proof.
  destruct (serve_ensure q st) as (h & -> & _). simpl. unfold exec.
  destruct (_ensure_data_is_cached st) as [r st1] eqn:He.
  by apply ensure_frame in He as (_ & ? & _).
Qed.

Lemma serve_all_config qs st : config (serve_all qs st) = config st.
Proof.
  unfold serve_all. revert st. induction qs as [|q qs IH]; intros st; simpl;
    [done|]. by rewrite IH, serve_config.
Qed.

(** A search that answers has found a table in the cache and answers
    [search_result] of it. *)
Lemma search_ok_inv keywords functional_area st rs :
  eval (search_inquiries keywords functional_area) st = Ok rs →
  uploads st ≠ [] ∧
  ∃ st1 l d, _ensure_data_is_cached st = (Ok tt, st1) ∧
    df (cache st1) = Some l ∧ heap st1 !! l = Some d ∧
    search_result (cache st1) keywords functional_area d = Ok rs.
Proof.
  unfold eval. intros H.
  destruct (decide (uploads st = [])) as [Hu|Hu];
    [by rewrite search_no_files in H|]. split; [done|].
  destruct (_ensure_data_is_cached st) as [[[]|e] st1] eqn:He;
    [|by rewrite (search_ensure_raise _ _ _ _ _ Hu He) in H].
  destruct (df (cache st1)) as [l|] eqn:Hd;
    [|by rewrite (search_not_cached _ _ _ _ Hu He Hd) in H].
  destruct (heap st1 !! l) as [d|] eqn:Hl.
  - destruct (search_run keywords functional_area st st1 l d Hu He Hd Hl)
      as (h & Hrun & _).
    rewrite Hrun in H. simpl in H. by exists st1, l, d.
  - revert H. unfold search_inquiries, bind, get, raise, deref.
    rewrite bool_decide_eq_false_2 by done. by rewrite He, Hd, Hl.
Qed.

End Facts.

(** ** The instance keeps the library laws *)

#[global] Instance key_ge_total : Total key_ge.
Proof.
  intros a b. unfold key_ge. rewrite !Qle_bool_iff.
  destruct (Qlt_le_dec a.2 b.2) as [H|H]; [right; by apply Qlt_le_weak|by left].
Qed.

#[global] Instance key_ge_trans : Transitive key_ge.
Proof.
  intros a b c. unfold key_ge. rewrite !Qle_bool_iff. intros ??.
  by apply Qle_trans with b.2.
Qed.

Lemma indexed_fst keys : (indexed keys).*1 = seq 0 (length keys).
Proof.
  unfold indexed. rewrite fmap_imap.
  rewrite (imap_ext _ (λ i _, id i)) by done.
  by rewrite imap_seq_0, list_fmap_id.
Qed.

Lemma indexed_lookup keys :
  Forall (λ p : nat * Q, keys !! p.1 = Some p.2) (indexed keys).
Proof.
  apply Forall_lookup_2. intros i p Hp. unfold indexed in Hp.
  apply list_lookup_imap_Some in Hp as (k & Hk & ->). done.
Qed.

Lemma omap_keys (keys : list Q) (ps : list (nat * Q)) :
  Forall (λ p, keys !! p.1 = Some p.2) ps →
  omap (λ i, keys !! i) (ps.*1) = ps.*2.
Proof.
  induction 1 as [|p ps Hp _ IH]; [done|]. csimpl. by rewrite Hp, IH.
Qed.

Section Argsort.
Variable order : list (nat * Q) → list (nat * Q).
Hypothesis order_perm : ∀ ps, order ps ≡ₚ ps.
Hypothesis order_sorted : ∀ ps, StronglySorted key_ge (order ps).

Lemma argsort_of_order_perm keys :
  (order (indexed keys)).*1 ≡ₚ seq 0 (length keys).
Proof. by rewrite order_perm, indexed_fst. Qed.

Lemma argsort_of_order_sorted keys :
  StronglySorted (λ a b, (b <= a)%Q)
    (omap (λ i, keys !! i) (order (indexed keys)).*1).
Proof.
  rewrite omap_keys.
  - eapply StronglySorted_fmap; [|apply order_sorted].
    intros a b. unfold key_ge. by rewrite Qle_bool_iff.
  - eapply Forall_forall. intros p Hp. rewrite order_perm in Hp.
    revert p Hp. apply Forall_forall, indexed_lookup.
Qed.

End Argsort.

Lemma toy_read_excel_rect bytes s :
  toy_read_excel bytes = inr s → Forall (λ vs, length vs = length s.1) s.2.
Proof.
  unfold toy_read_excel. repeat case_bool_decide; intros [= <-];
    repeat constructor.
Qed.

Lemma toy_fit_length docs (v : unit) m :
  toy_fit docs = inr (v, m) → length m = length docs.
Proof. unfold toy_fit. case_bool_decide; [done|]. by intros [= _ <-]. Qed.

Lemma merge_argsort_perm keys : merge_argsort keys ≡ₚ seq 0 (length keys).
Proof.
  apply (argsort_of_order_perm (merge_sort key_ge)).
  apply merge_sort_Permutation.
Qed.

Lemma merge_argsort_sorted keys :
  StronglySorted (λ a b, (b <= a)%Q) (omap (λ i, keys !! i) (merge_argsort keys)).
Proof.
  apply (argsort_of_order_sorted (merge_sort key_ge)).
  - apply merge_sort_Permutation.
  - intros ps. apply StronglySorted_merge_sort; apply _.
Qed.

Lemma non_increasing_sorted (l : list Q) :
  non_increasing l = true → StronglySorted (λ a b, (b <= a)%Q) l.
Proof.
  induction l as [|x l IH]; simpl; [constructor|].
  intros [Hx Hl]%andb_true_iff. constructor; [by apply IH|].
  apply Forall_forall. intros y Hy%list_elem_of_In.
  rewrite forallb_forall in Hx. by apply Qle_bool_iff, Hx.
Qed.

Lemma is_argsort_desc_spec keys p :
  is_argsort_desc keys p = true →
  p ≡ₚ seq 0 (length keys) ∧
  StronglySorted (λ a b, (b <= a)%Q) (omap (λ i, keys !! i) p).
Proof.
  unfold is_argsort_desc. intros [Hp Hs]%andb_true_iff.
  apply bool_decide_eq_true in Hp. split; [|by apply non_increasing_sorted].
  rewrite <-Hp. symmetry. apply merge_sort_Permutation.
Qed.

(** Checked or merged, the indexer of the instance meets the contract. *)
Lemma toy_argsort_spec keys :
  toy_argsort keys ≡ₚ seq 0 (length keys) ∧
  StronglySorted (λ a b, (b <= a)%Q) (omap (λ i, keys !! i) (toy_argsort keys)).
Proof.
  unfold toy_argsort. destruct (nargsort keys) as [p|];
    [destruct (is_argsort_desc keys p) eqn:Hp|];
    auto using is_argsort_desc_spec, merge_argsort_perm, merge_argsort_sorted.
Qed.

#[global] Instance toy_laws : EnvLaws toy_env.
Proof.
  split.
  - apply toy_read_excel_rect.
  - apply toy_fit_length.
  - intros keys. apply toy_argsort_spec.
  - intros keys. apply toy_argsort_spec.
Qed.

(** * The specification's properties *)

(** C4. Whichever step of a rebuild raises, the call ends with every field
    of the cache reset and raises an [HTTPException] to its caller. *)
Theorem C4_failed_rebuild_empties_cache `{E : Env} (st : State) (f : File)
    (e : exn) (st1 : State) :
  latest_file (uploads st) = Some f →
  cache_hit (cache st) (path_join UPLOAD_DIR (fname f)) = false →
  rebuild f st = (Raise e, st1) →
  _ensure_data_is_cached st = (Raise (as_http e), set_cache empty_cache st1) ∧
  cache (set_cache empty_cache st1) = mkCache None None None None ∧
  ∃ status_code detail, as_http e = HTTPException status_code detail.
Proof.
  intros Hf Hh Hr. rewrite (ensure_rebuild _ _ Hf Hh), <-rebuild_eq, Hr.
  repeat split. destruct e; simpl; eauto.
Qed.

Lemma C4_witness :
  _ensure_data_is_cached junk_state =
    (Raise (HTTPException 500 (MSG_UNEXPECTED "File is not a zip file")),
     set_cache empty_cache (log_event (EvRead "uploads/a.xlsx") junk_state)) ∧
  cache (set_cache empty_cache (log_event (EvRead "uploads/a.xlsx") junk_state)) =
    mkCache None None None None.
Proof.
  destruct (C4_failed_rebuild_empties_cache junk_state junk_file
              (PyError "File is not a zip file")
              (log_event (EvRead "uploads/a.xlsx") junk_state))
    as (H1 & H2 & _); [reflexivity..|].
  split; [exact H1|exact H2].
Defined.

Lemma first_missing_Some `{E : Env} cols d c :
  first_missing cols d = Some c → c ∈ cols ∧ c ∉ columns d.
Proof.
  unfold first_missing. intros [Hin Hc]%find_some.
  split; [by apply list_elem_of_In|].
  apply negb_true_iff in Hc. unfold has_column in Hc.
  by apply bool_decide_eq_false in Hc.
Qed.





Lemma cache_hit_iff `{E : Env} (c : Cache) latest :
  cache_hit c latest = true ↔ filepath c = Some latest ∧ is_Some (df c).
Proof.
  unfold cache_hit, is_cached. rewrite andb_true_iff, bool_decide_eq_true.
  destruct (df c) as [l|].
  - split; intros [Hp _]; split; eauto.
  - split; intros [_ Hd]; [done|]. by destruct Hd.
Qed.

(** C2, as the code has it. The cache is keyed by the newest file's path
    alone: the call is a hit, leaving the whole state as it was, exactly
    when that path is the cached [filepath] and a table is cached;
    otherwise it reads the newest file to rebuild. *)
Theorem C2_hit_iff_same_path `{E : Env} (st : State) (f : File) :
  latest_file (uploads st) = Some f →
  let latest := path_join UPLOAD_DIR (fname f) in
  (filepath (cache st) = Some latest ∧ is_Some (df (cache st)) →
   _ensure_data_is_cached st = (Ok tt, st)) ∧
  (¬ (filepath (cache st) = Some latest ∧ is_Some (df (cache st))) →
   io_log (exec _ensure_data_is_cached st) = EvRead latest :: io_log st ∨
   io_log (exec _ensure_data_is_cached st) =
     EvFit :: EvRead latest :: io_log st).
Proof.
  intros Hf latest. split.
  - intros Hh%cache_hit_iff. by apply (ensure_hit _ f).
  - intros Hn. unfold exec.
    assert (cache_hit (cache st) latest = false) as Hh.
    { apply not_true_iff_false. by rewrite cache_hit_iff. }
    rewrite (ensure_rebuild _ _ Hf Hh).
    destruct (rebuild_outcome f st) as [r st1] eqn:Hr.
    apply rebuild_outcome_log in Hr. by destruct r.
Qed.

Lemma C2_witness :
  latest_file (uploads two_cached) = Some two_file ∧
  _ensure_data_is_cached two_cached = (Ok tt, two_cached).
Proof.
  split; [reflexivity|].
  apply (C2_hit_iff_same_path two_cached two_file eq_refl).
  split; [reflexivity|]. eexists. reflexivity.
Defined.

(** C2, as stated, fails: the file's change time is no part of the key.
    The newest file's identity differs from the one the entry was built
    under, and yet the call is a hit that rebuilds nothing. *)
Lemma C2_counterexample :
  current_source_identity two_cached = Some ("uploads/a.xlsx", 10) ∧
  current_source_identity two_rewritten = Some ("uploads/a.xlsx", 20) ∧
  cache two_rewritten = cache two_cached ∧
  _ensure_data_is_cached two_rewritten = (Ok tt, two_rewritten).
Proof. repeat split. Qed.

(** C9, as the code has it. After an invalidation, a call whose rebuild
    succeeds reads the newest file once and fits the index once, and every
    later call, with the directory unchanged, returns at once and leaves
    the whole state as it is. *)
Theorem C9_idempotent_after_successful_rebuild `{E : Env} (st st1 : State)
    (f : File) :
  latest_file (uploads st) = Some f →
  cache st = empty_cache →
  _ensure_data_is_cached st = (Ok tt, st1) →
  io_log st1 = EvFit :: EvRead (path_join UPLOAD_DIR (fname f)) :: io_log st ∧
  uploads st1 = uploads st ∧
  _ensure_data_is_cached st1 = (Ok tt, st1) ∧
  ∀ n, Nat.iter n (exec _ensure_data_is_cached) st1 = st1.
Proof.
  intros Hf Hc He.
  assert (cache_hit (cache st) (path_join UPLOAD_DIR (fname f)) = false) as Hh
    by (by rewrite Hc).
  rewrite (ensure_rebuild _ _ Hf Hh) in He.
  destruct (rebuild_outcome f st) as [[[]|e] st'] eqn:Hr; [|done].
  injection He as ->.
  apply rebuild_outcome_ok in Hr as (s & col & vm & _ & _ & _ & _ & _ & Hst).
  assert (_ensure_data_is_cached st1 = (Ok tt, st1)) as Hhit.
  { apply (ensure_hit _ f); rewrite Hst; [done|]. unfold cache_hit. simpl.
    by rewrite bool_decide_eq_true_2. }
  repeat split; [by rewrite Hst..|exact Hhit|].
  induction n as [|n IH]; simpl; [done|]. rewrite IH. unfold exec.
  by rewrite Hhit.
Qed.

Lemma C9_witness :
  io_log two_cached = [EvFit; EvRead "uploads/a.xlsx"] ∧
  uploads two_cached = uploads two_state ∧
  _ensure_data_is_cached two_cached = (Ok tt, two_cached) ∧
  ∀ n, Nat.iter n (exec _ensure_data_is_cached) two_cached = two_cached.
Proof.
  apply (C9_idempotent_after_successful_rebuild two_state two_cached two_file);
    reflexivity.
Defined.

(** C9, as stated, fails when the rebuild fails: with no new file in
    between, the first call after the invalidation reads the file and fits
    nothing, and the second call reads the file again. *)
Lemma C9_counterexample :
  cache junk_state = empty_cache ∧
  uploads (exec _ensure_data_is_cached junk_state) = uploads junk_state ∧
  io_log (exec _ensure_data_is_cached junk_state) = [EvRead "uploads/a.xlsx"] ∧
  io_log (exec _ensure_data_is_cached (exec _ensure_data_is_cached junk_state)) =
    [EvRead "uploads/a.xlsx"; EvRead "uploads/a.xlsx"].
Proof. repeat split. Qed.

Lemma dropna_filled (s : list cell) : dropna (fill_cell <$> s) = fill_cell <$> s.
Proof.
  unfold dropna. induction s as [|c s IH]; [done|]. csimpl.
  rewrite filter_cons_True by (by destruct c). by rewrite IH.
Qed.

(** C3 does not hold of the code. A row whose category cell is missing has
    it filled with the empty string when the file is loaded, so the later
    [dropna] finds nothing to drop: for the sheet whose second row has no
    category, the listing is [Auth] followed by the empty string. *)
Theorem C3_missing_category_is_listed :
  eval get_functional_areas gap_state =
    Ok [Str "Auth"; Str EmptyString].
Proof. reflexivity. Qed.

(** C10. A search leaves the cache entry, and every object alive once the
    cache has been checked (the cached data frame among them), as the
    cache check left them: the similarity column goes to an object the
    request allocated itself. *)
Theorem C10_search_leaves_cached_state `{E : Env} (st : State)
    (keywords : string) (functional_area : option string) :
  let st1 := exec _ensure_data_is_cached st in
  let st2 := exec (search_inquiries keywords functional_area) st in
  cache st2 = cache st1 ∧ uploads st2 = uploads st1 ∧
  config st2 = config st1 ∧ io_log st2 = io_log st1 ∧
  ∀ l d, heap st1 !! l = Some d → heap st2 !! l = Some d.
Proof.
  destruct (serve_ensure (Search keywords functional_area) st) as (h & Hs & Hh).
  simpl in Hs. simpl. rewrite Hs. by repeat split.
Qed.


Lemma named_filter_Some a :
  a ≠ EmptyString → a ≠ ALL → named_filter (Some a) = Some a.
Proof. intros ??. unfold named_filter. by rewrite !bool_decide_eq_false_2. Qed.



Lemma named_filter_None (functional_area : option string) :
  functional_area = None ∨ functional_area = Some EmptyString ∨
    functional_area = Some ALL →
  named_filter functional_area = None.
Proof. by intros [->|[->| ->]]. Qed.

(** C7, as the code has it. When the filter is a non-empty string other
    than the sentinel, every returned record carries exactly that string in
    its category field. When the filter is absent, empty or the sentinel,
    the rows ranked are all the rows of the cached table. *)
Theorem C7_named_filter_selects_category `{E : Env} (st : State)
    (keywords : string) (functional_area : option string) (rs : list record) :
  eval (search_inquiries keywords functional_area) st = Ok rs →
  (∀ a, functional_area = Some a → a ≠ EmptyString → a ≠ ALL →
     ∀ rec, rec ∈ rs → field CATEGORY rec = Some (Str a)) ∧
  (functional_area = None ∨ functional_area = Some EmptyString ∨
     functional_area = Some ALL →
   ∃ st1 l d, _ensure_data_is_cached st = (Ok tt, st1) ∧
     df (cache st1) = Some l ∧ heap st1 !! l = Some d ∧
     Ok rs = if empty d then Ok [] else rank (cache st1) keywords d).
Proof.
  intros (Hu & st1 & l & d & He & Hd & Hl & Hres)%search_ok_inv. split.
  - intros a -> Ha1 Ha2 rec Hrec.
    destruct (search_result_sound _ _ _ _ _ Hres rec Hrec)
      as (s & r & _ & -> & Hcat).
    destruct (Hcat a (named_filter_Some a Ha1 Ha2)) as (i & Hi & Hr).
    by apply (field_category_result _ _ _ i).
  - intros Hfa%named_filter_None. exists st1, l, d. repeat split; try done.
    revert Hres. unfold search_result, candidates. by rewrite Hfa.
Qed.

Lemma C7_witness :
  eval (search_inquiries "login" (Some "Billing")) two_state =
    Ok [billing_record] ∧
  Forall (λ rec, field CATEGORY rec = Some (Str "Billing")) [billing_record].
Proof.
  split; [reflexivity|]. apply Forall_forall.
  apply (C7_named_filter_selects_category two_state "login" (Some "Billing"));
    [reflexivity|reflexivity|done|done].
Defined.

(** C7, as stated, fails for the empty filter string: it is not the
    sentinel, yet the search ranks every row, and returns one whose
    category is [Auth]. *)
Lemma C7_counterexample :
  EmptyString ≠ ALL ∧
  ∃ rs rec,
    eval (search_inquiries "login" (Some EmptyString)) two_state = Ok rs ∧
    rec ∈ rs ∧ field CATEGORY rec = Some (Str "Auth") ∧
    field CATEGORY rec ≠ Some (Str EmptyString).
Proof.
  split; [done|]. eexists _, _. split; [reflexivity|].
  split; [by left|]. by split.
Qed.

(** C5, as the code has it. Once an upload has completed whose bytes the
    operating system stored as an entry of the upload directory, with a
    change time later than that of every file already there, the cache is
    empty, the entry is the newest file, and every search that answers,
    however many read requests came in between, answers with rows of the
    table built from the uploaded bytes, each with its score attached. *)
Theorem C5_search_after_upload_serves_it `{E : Env} (st : State)
    (filename entry data : string) (now : Z) (qs : list Request)
    (keywords : string) (functional_area : option string) (rs : list record) :
  Forall (λ f, (ctime f < now)%Z) (uploads st) →
  eval (search_inquiries keywords functional_area)
    (serve_all qs (exec (upload_file filename data now (Stored entry)) st)) =
    Ok rs →
  eval (upload_file filename data now (Stored entry)) st =
    Ok (filename +:+ " のアップロードが成功しました。") ∧
  cache (exec (upload_file filename data now (Stored entry)) st) = empty_cache ∧
  latest_file (uploads (exec (upload_file filename data now (Stored entry)) st)) =
    Some (mkFile entry now data) ∧
  ∃ s, read_excel data = inr s ∧
    ∀ rec, rec ∈ rs →
      ∃ score r, r ∈ rows (built (search_columns st) s) ∧
        rec = result_of (columns (built (search_columns st) s)) (score, r).
Proof.
  intros Hold Hrs.
  pose proof (serving_upload filename entry data now st Hold) as Hserv.
  split; [unfold eval; by rewrite upload_run|].
  split; [unfold exec; by rewrite upload_run|].
  split; [apply Hserv|].
  apply (serving_serve_all _ qs) in Hserv.
  assert (config (serve_all qs
            (exec (upload_file filename data now (Stored entry)) st)) = config st)
    as Hcfg.
  { rewrite serve_all_config. unfold exec. by rewrite upload_run. }
  apply search_ok_inv in Hrs as (_ & st1 & l & d & He & Hd & Hl & Hres).
  pose proof (serving_ensure _ _ _ _ Hserv He) as [_ Hc].
  destruct (Hc l Hd) as (s & Hs & Hb). exists s. split; [done|].
  assert (search_columns st1 = search_columns st) as Hcols.
  { unfold search_columns. apply ensure_frame in He as (_ & -> & _).
    by rewrite Hcfg. }
  rewrite Hcols in Hb. assert (d = built (search_columns st) s) as -> by congruence.
  intros rec Hrec.
  destruct (search_result_sound _ _ _ _ _ Hres rec Hrec) as (sc & r & Hr & -> & _).
  eauto.
Qed.

Lemma C5_witness :
  ∃ rs,
    eval (search_inquiries "login" (Some ALL))
      (serve_all [Areas; Search "export" None]
         (exec (upload_file "b.xlsx" "gap" 11 (Stored "b.xlsx")) first_served)) =
      Ok rs ∧
    rs ≠ [] ∧
    eval (upload_file "b.xlsx" "gap" 11 (Stored "b.xlsx")) first_served =
      Ok "b.xlsx のアップロードが成功しました。" ∧
    cache (exec (upload_file "b.xlsx" "gap" 11 (Stored "b.xlsx")) first_served) =
      empty_cache ∧
    latest_file
      (uploads (exec (upload_file "b.xlsx" "gap" 11 (Stored "b.xlsx")) first_served)) =
      Some (mkFile "b.xlsx" 11 "gap") ∧
    ∃ s, @read_excel toy_env "gap" = inr s ∧
      ∀ rec, rec ∈ rs →
        ∃ score r,
          r ∈ rows (@built toy_env (search_columns first_served) s) ∧
          rec = result_of
                  (columns (@built toy_env (search_columns first_served) s))
                  (score, r).
Proof.
  eexists. split; [vm_compute; reflexivity|]. split; [done|].
  apply (C5_search_after_upload_serves_it first_served "b.xlsx" "b.xlsx" "gap" 11
           [Areas; Search "export" None] "login" (Some ALL));
    [by repeat constructor|vm_compute; reflexivity].
Defined.

(** C5, as stated, fails. A first file is uploaded and searched; a second
    upload then arrives under the file name [../b.xlsx], which leads out of
    the upload directory. The handler writes the bytes, empties the cache
    and answers with the success message; the search that follows builds
    its table from the first file again and returns that file's two rows,
    none of the second one's. *)
Lemma C5_counterexample :
  uploads first_served = [mkFile "a.xlsx" 10 "two"] ∧
  @read_excel toy_env "plain" = inr sheet_plain ∧
  eval (upload_file "../b.xlsx" "plain" 20 Elsewhere) first_served =
    Ok "../b.xlsx のアップロードが成功しました。" ∧
  cache (exec (upload_file "../b.xlsx" "plain" 20 Elsewhere) first_served) =
    empty_cache ∧
  ∃ rs,
    eval (search_inquiries "login" None)
      (exec (upload_file "../b.xlsx" "plain" 20 Elsewhere) first_served) = Ok rs ∧
    field "title" <$> rs =
      [Some (Str "login fails"); Some (Str "billing issue")] ∧
    row_get 0 <$> rows (@built toy_env ["title"] sheet_plain) =
      [Str "export hangs"; Str "export is slow"].
Proof. repeat split. eexists. repeat split. Qed.

(** C1, as the code has it. With a table in the cache, a search returns
    the first hundred, at most, of an arrangement of the rows kept by the
    filter, each with its score, in which scores never increase. Which of
    the arrangements with that property it is, that is the order among
    equal scores, is up to the library's default sort. *)
Theorem C1_ranked_descending_top_100 `{E : Env} `{!EnvLaws E} (st st1 : State)
    (l : loc) (d t : DataFrame) (v : Vectorizer) (m : list Vec)
    (keywords : string) (functional_area : option string) :
  cache_wf st →
  uploads st ≠ [] →
  _ensure_data_is_cached st = (Ok tt, st1) →
  df (cache st1) = Some l →
  heap st1 !! l = Some d →
  vectorizer (cache st1) = Some v →
  matrix (cache st1) = Some m →
  candidates functional_area d = Some t →
  ∃ fm rk,
    slice_matrix m (label <$> rows t) = Some fm ∧
    rk ≡ₚ zip (cosine_similarity (transform v keywords) <$> fm) (rows t) ∧
    StronglySorted (λ a b : Q * Row, (b.1 <= a.1)%Q) rk ∧
    eval (search_inquiries keywords functional_area) st =
      Ok (result_of (columns t) <$> take 100 rk) ∧
    (length (result_of (columns t) <$> take 100 rk) ≤ 100)%nat.
Proof.
  intros Hwf Hu He Hd Hl Hv Hm Ht.
  pose proof (ensure_wf _ _ _ Hwf He) as Hwf1.
  destruct (Hwf1 l Hd)
    as (d' & v' & m' & Hl' & Hv' & Hm' & Hrect & Hcols & Hlab).
  assert (d' = d) as -> by congruence.
  assert (m' = m) as -> by congruence.
  destruct (slice_candidates m functional_area d t Hlab Ht) as [fm Hfm].
  set (sims := cosine_similarity (transform v keywords) <$> fm).
  assert (length sims = length (rows t)) as Hlen.
  { unfold sims. rewrite length_fmap, (slice_matrix_length _ _ _ Hfm).
    by rewrite length_fmap. }
  exists fm, (ranked sims (rows t)).
  split; [done|]. split; [by apply ranked_perm|].
  split; [by apply ranked_sorted|]. split.
  - destruct (search_run keywords functional_area st st1 l d Hu He Hd Hl)
      as (h & Hrun & _).
    unfold eval. rewrite Hrun. simpl. unfold search_result. rewrite Ht.
    unfold empty.
    rewrite (bool_decide_eq_false_2 (columns t = []))
      by (apply candidates_rows in Ht as [-> _]; done).
    rewrite orb_false_r. case_bool_decide as Hrows.
    + pose proof (ranked_perm sims (rows t) Hlen) as Hp.
      rewrite Hrows in Hp. rewrite Hrows in Hlen.
      apply nil_length_inv in Hlen. rewrite Hlen in Hp. simpl in Hp.
      apply Permutation_nil_r in Hp. by rewrite Hrows, Hlen, Hp.
    + apply (rank_eq _ _ _ m); [done..|]. by eapply candidates_rect.
  - rewrite length_fmap, length_take. lia.
Qed.

Lemma C1_witness :
  ∃ fm rk,
    slice_matrix dup_matrix (label <$> rows dup_table) = Some fm ∧
    rk ≡ₚ zip (@cosine_similarity toy_env "login" <$> fm) (rows dup_table) ∧
    StronglySorted (λ a b : Q * Row, (b.1 <= a.1)%Q) rk ∧
    eval (search_inquiries "login" None) dup_state =
      Ok (result_of (columns dup_table) <$> take 100 rk) ∧
    (length (result_of (columns dup_table) <$> take 100 rk) ≤ 100)%nat.
Proof.
  apply (C1_ranked_descending_top_100 dup_state dup_cached 0%nat dup_table
           dup_table tt dup_matrix "login" None);
    [by apply wf_empty|done|reflexivity..].
Defined.

(** C1, as stated, fails on ties. The sample's twenty rows carry two
    titles in turn, so the ten rows of a title have the same text and the
    same score: 1 for the rows numbered evenly, 0 for the others. The
    search returns them by descending score, and within a score in another
    order than the original one. *)
Lemma C1_counterexample :
  Forall (λ sr : Q * Row,
            sr.1 = if Nat.even (label sr.2) then 1%Q else 0%Q) mix_scored ∧
  ∃ rs,
    eval (search_inquiries "login" None) mix_state = Ok rs ∧
    rs ≠ spec_ranking (columns mix_table) mix_scored.
Proof.
  split; [by repeat constructor|].
  eexists. split; [vm_compute; reflexivity|]. vm_compute. by intros [=].
Qed.

(** * Further properties of the handlers *)

(** ** The newest file *)

Lemma foldl_newer_split (b : File) (fs : list File) :
  ∃ pre post,
    b :: fs = (pre ++ foldl newer b fs :: post)%list ∧
    Forall (λ f, (ctime f < ctime (foldl newer b fs))%Z) pre ∧
    Forall (λ f, (ctime f <= ctime (foldl newer b fs))%Z) post.
Proof.
  revert b. induction fs as [|f fs IH]; intros b; simpl.
  { exists [], []. by repeat split. }
  destruct (IH (newer b f)) as (pre & post & Heq & Hpre & Hpost).
  set (g := foldl newer (newer b f) fs) in *.
  assert (ctime (newer b f) <= ctime g)%Z as Hn.
  { destruct pre as [|p pre]; simpl in Heq; injection Heq as Hp _.
    - rewrite Hp. lia.
    - subst p. apply Forall_cons in Hpre as [? _]. lia. }
  unfold newer in Heq, Hn. destruct (Z.ltb_spec (ctime b) (ctime f)) as [Hlt|Hge].
  - exists (b :: pre), post. rewrite Heq. repeat split; [|done].
    constructor; [lia|done].
  - destruct pre as [|p pre]; simpl in Heq; injection Heq as Hp Hfs.
    + exists [], (f :: post). rewrite Hfs. repeat split; [by rewrite Hp|done|].
      constructor; [lia|done].
    + subst p. apply Forall_cons in Hpre as [Hb Hpre].
      exists (b :: f :: pre), post. rewrite Hfs. repeat split; [|done].
      constructor; [done|]. constructor; [lia|done].
Qed.

(** X1. The file the cache check takes as the dataset is one of the
    directory's files, none of the others has a later change time, and
    those listed before it are strictly older: among files of equal change
    time the first listed wins. *)
Theorem X1_latest_file_is_first_newest (fs : list File) (g : File) :
  latest_file fs = Some g →
  ∃ pre post,
    fs = (pre ++ g :: post)%list ∧
    Forall (λ f, (ctime f < ctime g)%Z) pre ∧
    Forall (λ f, (ctime f <= ctime g)%Z) post.
Proof.
  destruct fs as [|b fs]; simpl; [done|]. intros [= <-].
  apply foldl_newer_split.
Qed.

Lemma X1_witness :
  ∃ pre post,
    tied_files = (pre ++ mkFile "b.xlsx" 9 "gap" :: post)%list ∧
    Forall (λ f, (ctime f < 9)%Z) pre ∧
    Forall (λ f, (ctime f <= 9)%Z) post.
Proof.
  apply (X1_latest_file_is_first_newest tied_files (mkFile "b.xlsx" 9 "gap")).
  reflexivity.
Defined.

(** ** Uploads *)

Lemma find_file_write_same name data now (fs : list File) :
  find_file name (write_file name data now fs) = Some (mkFile name now data).
Proof.
  unfold find_file. induction fs as [|f fs IH]; simpl.
  - by rewrite bool_decide_eq_true_2.
  - case_bool_decide as Hf; simpl.
    + by rewrite bool_decide_eq_true_2.
    + by rewrite bool_decide_eq_false_2.
Qed.

Lemma find_file_write_other name data now (fs : list File) other :
  other ≠ name →
  find_file other (write_file name data now fs) = find_file other fs.
Proof.
  intros Hne. unfold find_file. induction fs as [|f fs IH]; simpl.
  - by rewrite bool_decide_eq_false_2.
  - case_bool_decide as Hf; simpl.
    + rewrite !bool_decide_eq_false_2; [done|congruence..].
    + by rewrite IH.
Qed.

Lemma write_file_names name data now (fs : list File) :
  fname <$> write_file name data now fs =
    if bool_decide (name ∈ fname <$> fs) then fname <$> fs
    else ((fname <$> fs) ++ [name])%list.
Proof.
  induction fs as [|f fs IH]; csimpl; [done|].
  destruct (decide (fname f = name)) as [Hf|Hf].
  - rewrite (bool_decide_eq_true_2 (fname f = name)) by done. csimpl.
    rewrite bool_decide_eq_true_2 by (apply elem_of_cons; by left).
    by rewrite Hf.
  - rewrite (bool_decide_eq_false_2 (fname f = name)) by done. csimpl.
    rewrite IH. destruct (decide (name ∈ fname <$> fs)) as [Hin|Hin].
    + rewrite (bool_decide_eq_true_2 (name ∈ fname <$> fs)) by done.
      by rewrite bool_decide_eq_true_2 by (apply elem_of_cons; by right).
    + rewrite (bool_decide_eq_false_2 (name ∈ fname <$> fs)) by done.
      rewrite bool_decide_eq_false_2; [done|].
      intros [?|?]%elem_of_cons; congruence.
Qed.

(** X2. What an upload does, by what the operating system makes of the
    path. When the bytes are stored as an entry of the upload directory,
    the handler answers with the success message, the entry holds the
    uploaded bytes, every entry of another name is as it was, and the cache
    is emptied. When the bytes are written elsewhere, the answer and the
    cache are the same and the directory is as it was. When [open] raises,
    the handler raises the 500 upload error and the cache and the directory
    are as they were; when the write breaks off halfway, the same holds but
    for the entry, which is left with what was written. Never does an
    upload touch the configuration, the objects in memory or the log. *)
Theorem X2_upload_stores_and_invalidates `{E : Env} (st : State)
    (filename data : string) (now : Z) (w : Written) :
  config (exec (upload_file filename data now w) st) = config st ∧
  heap (exec (upload_file filename data now w) st) = heap st ∧
  io_log (exec (upload_file filename data now w) st) = io_log st ∧
  match w with
  | Stored entry =>
      eval (upload_file filename data now w) st =
        Ok (filename +:+ " のアップロードが成功しました。") ∧
      find_file entry (uploads (exec (upload_file filename data now w) st)) =
        Some (mkFile entry now data) ∧
      (∀ other, other ≠ entry →
         find_file other (uploads (exec (upload_file filename data now w) st)) =
           find_file other (uploads st)) ∧
      cache (exec (upload_file filename data now w) st) = empty_cache
  | Elsewhere =>
      eval (upload_file filename data now w) st =
        Ok (filename +:+ " のアップロードが成功しました。") ∧
      uploads (exec (upload_file filename data now w) st) = uploads st ∧
      cache (exec (upload_file filename data now w) st) = empty_cache
  | Refused _ =>
      eval (upload_file filename data now w) st =
        Raise (HTTPException 500
                 "ファイルのアップロード中にエラーが発生しました。") ∧
      uploads (exec (upload_file filename data now w) st) = uploads st ∧
      cache (exec (upload_file filename data now w) st) = cache st
  | Broken entry part _ =>
      eval (upload_file filename data now w) st =
        Raise (HTTPException 500
                 "ファイルのアップロード中にエラーが発生しました。") ∧
      find_file entry (uploads (exec (upload_file filename data now w) st)) =
        Some (mkFile entry now part) ∧
      (∀ other, other ≠ entry →
         find_file other (uploads (exec (upload_file filename data now w) st)) =
           find_file other (uploads st)) ∧
      cache (exec (upload_file filename data now w) st) = cache st
  end.
Proof.
  unfold exec, eval. rewrite upload_run.
  destruct w as [entry| |msg|entry part msg]; simpl; repeat split;
    auto using find_file_write_same, find_file_write_other.
Qed.

(** ** No search column configured *)

Lemma ensure_no_columns `{E : Env} (st : State) (f : File) (s : Sheet) :
  latest_file (uploads st) = Some f →
  cache_hit (cache st) (path_join UPLOAD_DIR (fname f)) = false →
  read_excel (content f) = inr s →
  search_columns st = [] →
  ∃ st1, _ensure_data_is_cached st =
           (Raise (HTTPException 500 MSG_NO_COLUMNS), st1) ∧
         cache st1 = empty_cache ∧
         io_log st1 = EvRead (path_join UPLOAD_DIR (fname f)) :: io_log st.
Proof.
  intros Hf Hh Hs Hc. rewrite (ensure_rebuild _ _ Hf Hh).
  unfold rebuild_outcome. rewrite Hs. unfold search_columns in Hc. rewrite Hc.
  rewrite bool_decide_eq_true_2 by done. eauto.
Qed.

(** X4. With no search column configured, which is how the module starts
    out, a file that parses is still no dataset: while it is the newest
    upload and not cached, both the search and the category listing raise
    the 500 error saying that no search column is configured. They do so
    after having read the file, fit no index, and leave the cache empty. *)
Theorem X4_unconfigured_columns_fail_first_request `{E : Env} (st : State)
    (f : File) (s : Sheet) (keywords : string)
    (functional_area : option string) :
  search_columns st = [] →
  latest_file (uploads st) = Some f →
  cache_hit (cache st) (path_join UPLOAD_DIR (fname f)) = false →
  read_excel (content f) = inr s →
  eval (search_inquiries keywords functional_area) st =
    Raise (HTTPException 500
             "設定ファイルに検索対象列が指定されていません。") ∧
  eval get_functional_areas st =
    Raise (HTTPException 500
             "設定ファイルに検索対象列が指定されていません。") ∧
  cache (exec (search_inquiries keywords functional_area) st) = empty_cache ∧
  cache (exec get_functional_areas st) = empty_cache ∧
  io_log (exec (search_inquiries keywords functional_area) st) =
    EvRead (path_join UPLOAD_DIR (fname f)) :: io_log st ∧
  io_log (exec get_functional_areas st) =
    EvRead (path_join UPLOAD_DIR (fname f)) :: io_log st.
Proof.
  intros Hc Hf Hh Hs.
  assert (uploads st ≠ []) as Hu by (intros Hnil; by rewrite Hnil in Hf).
  destruct (ensure_no_columns st f s Hf Hh Hs Hc) as (st1 & He & Hc1 & Hlog).
  unfold eval, exec.
  rewrite (search_ensure_raise _ _ _ _ _ Hu He).
  by rewrite (areas_ensure_raise _ _ _ Hu He).
Qed.

Lemma X4_witness :
  let st := exec (upload_file "a.xlsx" "two" 10 (Stored "a.xlsx"))
              (@module_state toy_env []) in
  eval (search_inquiries "login" None) st =
    Raise (HTTPException 500
             "設定ファイルに検索対象列が指定されていません。") ∧
  eval get_functional_areas st =
    Raise (HTTPException 500
             "設定ファイルに検索対象列が指定されていません。") ∧
  cache (exec (search_inquiries "login" None) st) = empty_cache ∧
  cache (exec get_functional_areas st) = empty_cache ∧
  io_log (exec (search_inquiries "login" None) st) = [EvRead "uploads/a.xlsx"] ∧
  io_log (exec get_functional_areas st) = [EvRead "uploads/a.xlsx"].
Proof.
  apply (X4_unconfigured_columns_fail_first_request (E:=toy_env)
           (exec (upload_file "a.xlsx" "two" 10 (Stored "a.xlsx"))
              (@module_state toy_env []))
           two_file sheet_two "login" None); reflexivity.
Defined.

(** ** What every cached table satisfies *)

Lemma no_missing_fillna d : no_missing (fillna d).
Proof.
  unfold no_missing, fillna. simpl. apply Forall_fmap, Forall_forall.
  intros r _. simpl. apply Forall_fmap, Forall_forall. intros c _.
  by destruct c.
Qed.

Lemma no_missing_set_column col vals d :
  Forall (λ c, isna c = false) vals → no_missing d →
  no_missing (set_column col vals d).
Proof.
  unfold no_missing, set_column. intros Hv Hd.
  destruct (col_pos col (columns d)) as [i|]; simpl.
  - revert vals Hv. induction Hd as [|r rs Hr _ IH]; intros [|v vals] Hv;
      simpl; try constructor.
    + apply Forall_cons in Hv as [Hv _]. simpl. by apply Forall_insert.
    + apply Forall_cons in Hv as [_ Hv]. by apply IH.
  - revert vals Hv. induction Hd as [|r rs Hr _ IH]; intros [|v vals] Hv;
      simpl; try constructor.
    + apply Forall_cons in Hv as [Hv _]. simpl. apply Forall_app.
      split; [done|by constructor].
    + apply Forall_cons in Hv as [_ Hv]. by apply IH.
Qed.

Lemma column_set_column col vals d : col ∈ columns (set_column col vals d).
Proof.
  unfold set_column. destruct (col_pos col (columns d)) as [i|] eqn:Hi; simpl.
  - eapply list_elem_of_lookup_2, col_pos_Some, Hi.
  - apply elem_of_app. right. by left.
Qed.

Lemma normalised_built `{E : Env} cols (s : Sheet) : normalised (built cols s).
Proof.
  unfold built. split; [|apply column_set_column].
  apply no_missing_set_column; [|apply no_missing_fillna].
  unfold search_text. apply Forall_fmap, Forall_forall. by intros r _.
Qed.

Lemma holds_empty `{E : Env} P (st : State) :
  df (cache st) = None → cache_holds P st.
Proof. intros H l Hl. congruence. Qed.

Lemma holds_set_heap `{E : Env} P (st : State) h :
  (∀ l x, heap st !! l = Some x → h !! l = Some x) →
  cache_holds P st → cache_holds P (set_heap h st).
Proof.
  intros Hh Hc l Hl. destruct (Hc l Hl) as (d & Hd & HP).
  exists d. split; [by apply Hh|done].
Qed.

Lemma holds_ensure `{E : Env} (st : State) r st' :
  cache_holds normalised st → _ensure_data_is_cached st = (r, st') →
  cache_holds normalised st'.
Proof.
  intros Hc.
  destruct (ensure_cases st) as [[_ H]|[(f & _ & _ & H)|(f & _ & _ & H)]];
    rewrite H; [by intros [= <- <-]..|].
  destruct (rebuild_outcome f st) as [[[]|e] st1] eqn:Hr; intros [= <- <-].
  - apply rebuild_outcome_ok in Hr as (s & col & vm & _ & _ & _ & _ & _ & ->).
    intros l [= <-]. simpl. eexists. split; [apply lookup_insert_eq|].
    apply normalised_built.
  - by apply holds_empty.
Qed.

Lemma holds_step `{E : Env} (x : Step) (st : State) :
  cache_holds normalised st → cache_holds normalised (step x st).
Proof.
  intros Hc. destruct x as [filename data now w|q]; simpl.
  - destruct w; [by apply holds_empty..|exact Hc|exact Hc].
  - destruct (serve_ensure q st) as (h & -> & Hh).
    apply holds_set_heap; [done|]. unfold exec.
    destruct (_ensure_data_is_cached st) as [r st1] eqn:He.
    by eapply holds_ensure.
Qed.

(** X5. In every state a process reaches from startup by uploads and read
    requests, a table in the cache is an object that is alive, none of its
    cells is a missing value, and it has the derived [search_text]
    column. *)
Theorem X5_cached_table_is_normalised `{E : Env} (cols : list string)
    (xs : list Step) (l : loc) :
  df (cache (run xs (boot cols))) = Some l →
  ∃ d, heap (run xs (boot cols)) !! l = Some d ∧
       no_missing d ∧ "search_text" ∈ columns d.
Proof.
  assert (∀ st, cache_holds normalised st → cache_holds normalised (run xs st))
    as Hrun.
  { unfold run. induction xs as [|x xs IH]; intros st Hc; simpl; [done|].
    by apply IH, holds_step. }
  intros Hl. apply (Hrun (boot cols)); [by apply holds_empty|done].
Qed.

Lemma X5_witness :
  ∃ d, heap gap_listed !! 0%nat = Some d ∧
       no_missing d ∧ "search_text" ∈ columns d.
Proof.
  apply (X5_cached_table_is_normalised (E:=toy_env) ["title"]
           [Upload "b.xlsx" "gap" 10 (Stored "b.xlsx"); Read Areas] 0%nat).
  reflexivity.
Defined.

(** X6. In every such state, moreover, the cached table comes with a
    vectorizer and a matrix that has one vector per row of the table, its
    rows are numbered from 0 in order, and each has one cell per column. *)
Theorem X6_cached_table_is_paired_with_matrix `{E : Env} `{!EnvLaws E}
    (cols : list string) (xs : list Step) (l : loc) :
  df (cache (run xs (boot cols))) = Some l →
  ∃ d v m,
    heap (run xs (boot cols)) !! l = Some d ∧
    vectorizer (cache (run xs (boot cols))) = Some v ∧
    matrix (cache (run xs (boot cols))) = Some m ∧
    length m = length (rows d) ∧
    label <$> rows d = seq 0 (length (rows d)) ∧
    rect d.
Proof.
  intros Hl.
  destruct (reachable_wf cols xs l Hl) as (d & v & m & Hd & Hv & Hm & Hr & _ & Hlab).
  exists d, v, m.
  assert (length m = length (rows d)) as Hlen
    by (by rewrite <-(length_fmap label), Hlab, length_seq).
  repeat split; try done. by rewrite Hlab, Hlen.
Qed.

Lemma X6_witness :
  ∃ d v m,
    heap gap_listed !! 0%nat = Some d ∧
    vectorizer (cache gap_listed) = Some v ∧
    matrix (cache gap_listed) = Some m ∧
    length m = length (rows d) ∧
    label <$> rows d = seq 0 (length (rows d)) ∧
    rect d.
Proof.
  apply (X6_cached_table_is_paired_with_matrix (E:=toy_env) ["title"]
           [Upload "b.xlsx" "gap" 10 (Stored "b.xlsx"); Read Areas] 0%nat).
  reflexivity.
Defined.

(** ** What a search returns *)

Lemma search_ranked `{E : Env} `{!EnvLaws E} (st st1 : State) (l : loc)
    (d t : DataFrame) (v : Vectorizer) (m : list Vec) (keywords : string)
    (functional_area : option string) :
  cache_wf st →
  uploads st ≠ [] →
  _ensure_data_is_cached st = (Ok tt, st1) →
  df (cache st1) = Some l →
  heap st1 !! l = Some d →
  vectorizer (cache st1) = Some v →
  matrix (cache st1) = Some m →
  candidates functional_area d = Some t →
  ∃ fm,
    slice_matrix m (label <$> rows t) = Some fm ∧
    length fm = length (rows t) ∧
    eval (search_inquiries keywords functional_area) st =
      Ok (result_of (columns t) <$>
            take 100 (ranked (cosine_similarity (transform v keywords) <$> fm)
                        (rows t))).
Proof.
  intros Hwf Hu He Hd Hl Hv Hm Ht.
  pose proof (ensure_wf _ _ _ Hwf He) as Hwf1.
  destruct (Hwf1 l Hd)
    as (d' & v' & m' & Hl' & Hv' & Hm' & Hrect & Hcols & Hlab).
  assert (d' = d) as -> by congruence.
  assert (m' = m) as -> by congruence.
  destruct (slice_candidates m functional_area d t Hlab Ht) as [fm Hfm].
  assert (length fm = length (rows t)) as Hlen
    by (by rewrite (slice_matrix_length _ _ _ Hfm), length_fmap).
  exists fm. split; [done|]. split; [done|].
  destruct (search_run keywords functional_area st st1 l d Hu He Hd Hl)
    as (h & Hrun & _).
  unfold eval. rewrite Hrun. simpl. unfold search_result. rewrite Ht.
  unfold empty.
  rewrite (bool_decide_eq_false_2 (columns t = []))
    by (apply candidates_rows in Ht as [-> _]; done).
  rewrite orb_false_r. case_bool_decide as Hrows.
  - set (sims := cosine_similarity (transform v keywords) <$> fm).
    assert (length sims = length (rows t)) as Hs
      by (unfold sims; by rewrite length_fmap).
    pose proof (ranked_perm sims (rows t) Hs) as Hp.
    rewrite Hrows in Hp, Hs. apply nil_length_inv in Hs. rewrite Hs in Hp.
    simpl in Hp. apply Permutation_nil_r in Hp. by rewrite Hrows, Hs, Hp.
  - apply (rank_eq _ _ _ m); [done..|]. by eapply candidates_rect.
Qed.

(** X7. A search drops no candidate for its score. With a table in the
    cache it returns as many records as the filter keeps rows, up to 100;
    and when the filter keeps at most 100 rows, the records are those rows,
    each with its score, in some order. *)
Theorem X7_search_returns_every_candidate `{E : Env} `{!EnvLaws E}
    (st st1 : State) (l : loc) (d t : DataFrame) (v : Vectorizer)
    (m : list Vec) (keywords : string) (functional_area : option string) :
  cache_wf st →
  uploads st ≠ [] →
  _ensure_data_is_cached st = (Ok tt, st1) →
  df (cache st1) = Some l →
  heap st1 !! l = Some d →
  vectorizer (cache st1) = Some v →
  matrix (cache st1) = Some m →
  candidates functional_area d = Some t →
  ∃ fm rs,
    slice_matrix m (label <$> rows t) = Some fm ∧
    eval (search_inquiries keywords functional_area) st = Ok rs ∧
    length rs = (100 `min` length (rows t))%nat ∧
    ((length (rows t) ≤ 100)%nat →
     rs ≡ₚ result_of (columns t) <$>
             zip (cosine_similarity (transform v keywords) <$> fm) (rows t)).
Proof.
  intros Hwf Hu He Hd Hl Hv Hm Ht.
  destruct (search_ranked st st1 l d t v m keywords functional_area)
    as (fm & Hfm & Hlen & Hrun); try done.
  set (sims := cosine_similarity (transform v keywords) <$> fm) in *.
  assert (length sims = length (rows t)) as Hs
    by (unfold sims; by rewrite length_fmap).
  pose proof (ranked_perm sims (rows t) Hs) as Hp.
  assert (length (ranked sims (rows t)) = length (rows t)) as Hrk.
  { rewrite Hp, length_zip. lia. }
  eexists fm, _. split; [done|]. split; [exact Hrun|]. split.
  - by rewrite length_fmap, length_take, Hrk.
  - intros Hle. rewrite take_ge by lia. by rewrite Hp.
Qed.

Lemma X7_witness :
  ∃ fm rs,
    slice_matrix dup_matrix (label <$> rows dup_table) = Some fm ∧
    eval (search_inquiries "fails" None) dup_state = Ok rs ∧
    length rs = (100 `min` length (rows dup_table))%nat ∧
    ((length (rows dup_table) ≤ 100)%nat →
     rs ≡ₚ result_of (columns dup_table) <$>
             zip (@cosine_similarity toy_env "fails" <$> fm) (rows dup_table)).
Proof.
  apply (X7_search_returns_every_candidate dup_state dup_cached 0%nat
           dup_table dup_table tt dup_matrix "fails" None);
    [by apply wf_empty|done|reflexivity..].
Defined.

Lemma field_result_similarity cols s (r : Row) :
  length (values r) = length cols →
  field "similarity" (result_of cols (s, r)) = Some (Num s).
Proof.
  intros Hlen. unfold result_of, sim_columns, attach. simpl.
  destruct (col_pos "similarity" cols) as [j|] eqn:Hj.
  - pose proof (col_pos_lt _ _ _ Hj) as Hlt.
    rewrite (field_to_record _ _ _ j Hj); simpl;
      [|rewrite length_insert; lia].
    unfold row_get, row_set. simpl. f_equal.
    apply nth_lookup_Some, list_lookup_insert_eq. lia.
  - rewrite (field_to_record _ _ _ (length cols) (col_pos_app_new _ _ Hj));
      simpl; [|rewrite length_app; simpl; lia].
    unfold row_get, row_push. simpl. f_equal.
    apply nth_lookup_Some. rewrite lookup_app_r by lia.
    by rewrite Hlen, Nat.sub_diag.
Qed.

Lemma field_result_other cols s (r : Row) c i :
  c ≠ "similarity" → col_pos c cols = Some i →
  length (values r) = length cols →
  field c (result_of cols (s, r)) = Some (row_get i r).
Proof.
  intros Hc Hi Hlen. pose proof (col_pos_lt _ _ _ Hi) as Hlt.
  unfold result_of, sim_columns, attach. simpl.
  destruct (col_pos "similarity" cols) as [j|] eqn:Hj.
  - assert (j ≠ i) as Hne.
    { intros ->. destruct Hc. by eapply col_pos_inj. }
    rewrite (field_to_record _ _ _ i Hi); simpl;
      [|rewrite length_insert; lia].
    unfold row_get, row_set. simpl. f_equal.
    by rewrite !nth_lookup, list_lookup_insert_ne.
  - rewrite (field_to_record _ _ _ i (col_pos_app_l _ _ _ _ Hi)); simpl;
      [|rewrite length_app; lia].
    unfold row_get, row_push. simpl. f_equal.
    rewrite app_nth1 by lia. done.
Qed.

(** X8. Every record a search returns is a row of the cached table with
    one field more: its [similarity] field holds a number, and its field
    under every other column of the table holds that row's cell. A column
    of the upload that is itself called [similarity] is overwritten by the
    score. *)
Theorem X8_record_is_row_plus_similarity `{E : Env} `{!EnvLaws E} (st : State)
    (keywords : string) (functional_area : option string) (rs : list record) :
  cache_wf st →
  eval (search_inquiries keywords functional_area) st = Ok rs →
  ∃ d, cached_table (exec _ensure_data_is_cached st) = Some d ∧
    ∀ rec, rec ∈ rs →
      ∃ score r, r ∈ rows d ∧
        field "similarity" rec = Some (Num score) ∧
        ∀ c i, c ≠ "similarity" → col_pos c (columns d) = Some i →
          field c rec = Some (row_get i r).
Proof.
  intros Hwf (Hu & st1 & l & d & He & Hd & Hl & Hres)%search_ok_inv.
  exists d. unfold exec, cached_table. rewrite He. simpl. rewrite Hd. simpl.
  split; [done|]. intros rec Hrec.
  destruct (search_result_sound _ _ _ _ _ Hres rec Hrec)
    as (s & r & Hr & -> & _).
  destruct (ensure_wf _ _ _ Hwf He l Hd)
    as (d' & _ & _ & Hl' & _ & _ & Hrect & _).
  assert (d' = d) as -> by congruence.
  assert (length (values r) = length (columns d)) as Hlen
    by (by eapply Forall_forall in Hrect).
  exists s, r. split; [done|]. split; [by apply field_result_similarity|].
  intros c i Hc Hi. by apply field_result_other.
Qed.

Lemma X8_witness :
  ∃ d, cached_table (exec _ensure_data_is_cached two_state) = Some d ∧
    ∀ rec, rec ∈ [billing_record] →
      ∃ score r, r ∈ rows d ∧
        field "similarity" rec = Some (Num score) ∧
        ∀ c i, c ≠ "similarity" → col_pos c (columns d) = Some i →
          field c rec = Some (row_get i r).
Proof.
  apply (X8_record_is_row_plus_similarity two_state "login" (Some "Billing")
           [billing_record]); [by apply wf_empty|reflexivity].
Defined.

(** ** The category listing *)

Lemma same_cell_refl (c : cell) : same_cell c c = true.
Proof.
  destruct c as [|s|x]; simpl; [done|by apply bool_decide_eq_true|].
  by apply Qeq_bool_iff.
Qed.

Lemma unique_from_elem seen (s : list cell) c :
  c ∈ unique_from seen s → c ∈ s ∧ existsb (same_cell c) seen = false.
Proof.
  revert seen. induction s as [|x s IH]; intros seen; simpl.
  { by intros ?%elem_of_nil. }
  destruct (existsb (same_cell x) seen) eqn:Hx.
  - intros [Hc Hs]%IH. split; [by right|done].
  - intros [->|Hc]%elem_of_cons; [split; [by left|done]|].
    apply IH in Hc as [Hc Hs]. split; [by right|].
    simpl in Hs. by apply orb_false_iff in Hs as [_ ?].
Qed.

Lemma unique_from_covers seen (s : list cell) c :
  c ∈ s →
  existsb (same_cell c) seen = true ∨
  ∃ c', c' ∈ unique_from seen s ∧ same_cell c c' = true.
Proof.
  revert seen. induction s as [|x s IH]; intros seen; simpl.
  { by intros ?%elem_of_nil. }
  destruct (existsb (same_cell x) seen) eqn:Hx.
  - intros [->|Hc]%elem_of_cons; [by left|by apply IH].
  - intros [->|Hc]%elem_of_cons.
    + right. exists x. split; [by left|apply same_cell_refl].
    + destruct (IH (x :: seen) Hc) as [Hs|(c' & Hc' & Hs)].
      * simpl in Hs. apply orb_true_iff in Hs as [Hs|Hs]; [|by left].
        right. exists x. split; [by left|done].
      * right. exists c'. split; [by right|done].
Qed.

Lemma unique_from_distinct seen (s : list cell) (i j : nat) a b :
  (i < j)%nat → unique_from seen s !! i = Some a →
  unique_from seen s !! j = Some b → same_cell b a = false.
Proof.
  revert seen i j. induction s as [|x s IH]; intros seen i j Hij; simpl;
    [done|].
  destruct (existsb (same_cell x) seen) eqn:Hx; [by apply IH|].
  destruct i as [|i]; destruct j as [|j]; simpl; try lia.
  - intros [= <-] Hb%list_elem_of_lookup_2.
    apply unique_from_elem in Hb as [_ Hb]. simpl in Hb.
    by apply orb_false_iff in Hb as [? _].
  - apply IH. lia.
Qed.

Lemma same_cell_trans (a b c : cell) :
  same_cell a b = true → same_cell b c = true → same_cell a c = true.
Proof.
  destruct a as [|s|x], b as [|t|y], c as [|u|z]; simpl; try done.
  - rewrite !bool_decide_eq_true. congruence.
  - rewrite !Qeq_bool_iff. apply Qeq_trans.
Qed.

Lemma existsb_same_cell (c x : cell) (seen : list cell) :
  same_cell c x = true → existsb (same_cell x) seen = true →
  existsb (same_cell c) seen = true.
Proof.
  intros Hcx. rewrite !existsb_exists.
  intros (y & Hy & Hxy). exists y. split; [done|]. by eapply same_cell_trans.
Qed.

Lemma first_occurrence_S seen x s i :
  first_occurrence seen (x :: s) (S i) ↔
  first_occurrence seen s i ∧
  ∀ c, s !! i = Some c → same_cell c x = false.
Proof.
  unfold first_occurrence. simpl. split.
  - intros (c & Hc & Hna & Hs & Hj). split.
    + exists c. repeat split; try done.
      intros j c' Hlt Hc'. apply (Hj (S j)); [lia|done].
    + intros c0 Hc0. assert (c0 = c) as -> by congruence.
      apply (Hj O); [lia|done].
  - intros [(c & Hc & Hna & Hs & Hj) Hx]. exists c. repeat split; try done.
    intros [|j] c' Hlt Hc'; simpl in Hc'.
    + injection Hc' as <-. by apply Hx.
    + apply (Hj j); [lia|done].
Qed.

Lemma elem_of_S_fmap (ps : list nat) i :
  i ∈ S <$> ps ↔ ∃ i', i = S i' ∧ i' ∈ ps.
Proof. apply list_elem_of_fmap. Qed.

Lemma StronglySorted_S_fmap (ps : list nat) :
  StronglySorted lt ps → StronglySorted lt (S <$> ps).
Proof. apply StronglySorted_fmap. intros ??; lia. Qed.

Lemma Forall2_S_fmap (x : cell) (s cats : list cell) (ps : list nat) :
  Forall2 (λ p a, s !! p = Some a) ps cats →
  Forall2 (λ p a, (x :: s) !! p = Some a) (S <$> ps) cats.
Proof. intros H. by apply Forall2_fmap_l. Qed.

(** The values [unique] keeps sit at the first occurrences, in order. *)
Lemma unique_from_positions seen (s : list cell) :
  ∃ ps, StronglySorted lt ps ∧
        Forall2 (λ p a, s !! p = Some a) ps (unique_from seen (dropna s)) ∧
        ∀ i, i ∈ ps ↔ first_occurrence seen s i.
Proof.
  revert seen. induction s as [|x s IH]; intros seen.
  { exists []. split; [constructor|]. split; [constructor|].
    intros i. split; [by intros ?%elem_of_nil|]. by intros (c & ? & _). }
  unfold dropna. destruct (isna x) eqn:Hx.
  - rewrite filter_cons_False by (by rewrite Hx).
    destruct (IH seen) as (ps & Hs & Hf & Hi). exists (S <$> ps).
    split; [by apply StronglySorted_S_fmap|].
    split; [by apply Forall2_S_fmap|].
    intros [|i].
    + split; [intros (i' & ? & _)%elem_of_S_fmap; lia|].
      intros (c & [= <-] & Hna & _). congruence.
    + rewrite first_occurrence_S, <-Hi, elem_of_S_fmap. split.
      * intros (i' & [= <-] & Hin). split; [done|].
        intros c Hc. apply Hi in Hin as (c0 & Hc0 & Hna & _).
        assert (c0 = c) as -> by congruence.
        destruct c, x; done.
      * intros [Hin _]. eauto.
  - rewrite filter_cons_True by done. simpl.
    destruct (existsb (same_cell x) seen) eqn:Hseen.
    + destruct (IH seen) as (ps & Hs & Hf & Hi). exists (S <$> ps).
      split; [by apply StronglySorted_S_fmap|].
      split; [by apply Forall2_S_fmap|].
      intros [|i].
      * split; [intros (i' & ? & _)%elem_of_S_fmap; lia|].
        intros (c & [= <-] & _ & Hc & _). congruence.
      * rewrite first_occurrence_S, <-Hi, elem_of_S_fmap. split.
        -- intros (i' & [= <-] & Hin). split; [done|].
           intros c Hc. apply Hi in Hin as (c0 & Hc0 & _ & Hnot & _).
           assert (c0 = c) as -> by congruence.
           destruct (same_cell c x) eqn:Hcx; [|done].
           by rewrite (existsb_same_cell c x seen) in Hnot.
        -- intros [Hin _]. eauto.
    + destruct (IH (x :: seen)) as (ps & Hs & Hf & Hi). exists (O :: (S <$> ps)).
      split.
      { constructor; [by apply StronglySorted_S_fmap|].
        apply Forall_fmap, Forall_forall. intros; simpl; lia. }
      split; [constructor; [done|by apply Forall2_S_fmap]|].
      intros [|i].
      * split; [|intros _; by left]. intros _. exists x.
        repeat split; try done. intros j c' Hlt. lia.
      * rewrite elem_of_cons, first_occurrence_S, elem_of_S_fmap. split.
        -- intros [?|(i' & [= <-] & Hin)]; [done|].
           apply Hi in Hin as (c & Hc & Hna & Hnot & Hj). simpl in Hnot.
           apply orb_false_iff in Hnot as [Hcx Hnot]. split.
           ++ by exists c.
           ++ intros c0 Hc0. by assert (c0 = c) as -> by congruence.
        -- intros [(c & Hc & Hna & Hnot & Hj) Hcx]. right. exists i.
           split; [done|]. apply Hi. exists c. repeat split; try done.
           simpl. by rewrite (Hcx c Hc), Hnot.
Qed.

(** X9. With a table in the cache that has the category column, the
    listing leaves the state as the cache check left it and returns the
    column's values, each once and in the order of their first occurrence:
    what it returns are the cells at the places, taken in increasing order,
    where the column holds a non-missing value that none of the cells
    before it equals. So no two of the values returned are equal, and every
    non-missing cell of the column equals one of them. *)
Theorem X9_categories_are_the_distinct_values `{E : Env} (st st1 : State)
    (l : loc) (d : DataFrame) (col : list cell) :
  uploads st ≠ [] →
  _ensure_data_is_cached st = (Ok tt, st1) →
  df (cache st1) = Some l →
  heap st1 !! l = Some d →
  get_column CATEGORY d = Some col →
  ∃ cats ps,
    get_functional_areas st = (Ok cats, st1) ∧
    StronglySorted lt ps ∧
    Forall2 (λ p a, col !! p = Some a) ps cats ∧
    (∀ i, i ∈ ps ↔
       ∃ c, col !! i = Some c ∧ isna c = false ∧
            ∀ j c', (j < i)%nat → col !! j = Some c' → same_cell c c' = false) ∧
    (∀ i j a b, (i < j)%nat → cats !! i = Some a → cats !! j = Some b →
       same_cell b a = false) ∧
    (∀ c, c ∈ col → isna c = false →
       ∃ c', c' ∈ cats ∧ same_cell c c' = true).
Proof.
  intros Hu He Hd Hl Hcol.
  destruct (unique_from_positions [] col) as (ps & Hs & Hf & Hi).
  exists (unique (dropna col)), ps.
  rewrite (areas_run _ _ Hu He), Hd, Hl, Hcol. split; [done|].
  unfold unique. split; [done|]. split; [done|]. split; [|split].
  - intros i. rewrite Hi. unfold first_occurrence. simpl. split.
    + intros (c & ? & ? & _ & ?). by exists c.
    + intros (c & ? & ? & ?). by exists c.
  - intros i j a b. apply unique_from_distinct.
  - intros c Hc Hna.
    destruct (unique_from_covers [] (dropna col) c) as [?|?]; [|done..].
    unfold dropna. by apply list_elem_of_filter.
Qed.

Lemma X9_witness :
  ∃ cats ps,
    get_functional_areas gap_state = (Ok cats, exec _ensure_data_is_cached gap_state) ∧
    StronglySorted lt ps ∧
    Forall2 (λ p a, [Str "Auth"; Str EmptyString; Str "Auth"] !! p = Some a)
      ps cats ∧
    (∀ i, i ∈ ps ↔
       ∃ c, [Str "Auth"; Str EmptyString; Str "Auth"] !! i = Some c ∧
            isna c = false ∧
            ∀ j c', (j < i)%nat →
              [Str "Auth"; Str EmptyString; Str "Auth"] !! j = Some c' →
              same_cell c c' = false) ∧
    (∀ i j a b, (i < j)%nat → cats !! i = Some a → cats !! j = Some b →
       same_cell b a = false) ∧
    (∀ c, c ∈ [Str "Auth"; Str EmptyString; Str "Auth"] → isna c = false →
       ∃ c', c' ∈ cats ∧ same_cell c c' = true).
Proof.
  apply (X9_categories_are_the_distinct_values gap_state
           (exec _ensure_data_is_cached gap_state) 0%nat
           (@built toy_env ["title"] sheet_gap)); [done|reflexivity..].
Defined.

(** ** Requests in a row *)

Lemma ensure_ok_hit `{E : Env} (st st1 : State) :
  uploads st ≠ [] →
  _ensure_data_is_cached st = (Ok tt, st1) →
  uploads st1 = uploads st ∧
  ∃ f, latest_file (uploads st1) = Some f ∧
       cache_hit (cache st1) (path_join UPLOAD_DIR (fname f)) = true.
Proof.
  intros Hu.
  destruct (ensure_cases st) as [[? _]|[(f & Hf & Hh & H)|(f & Hf & Hh & H)]];
    [done| |]; rewrite H.
  - intros [= <-]. eauto.
  - destruct (rebuild_outcome f st) as [[[]|e] st'] eqn:Hr; [|done].
    intros [= <-].
    apply rebuild_outcome_ok in Hr as (s & col & vm & _ & _ & _ & _ & _ & ->).
    simpl. repeat split. exists f. split; [done|].
    unfold cache_hit. simpl. by rewrite bool_decide_eq_true_2.
Qed.

Lemma ensure_hit_set_heap `{E : Env} (st : State) h f :
  latest_file (uploads st) = Some f →
  cache_hit (cache st) (path_join UPLOAD_DIR (fname f)) = true →
  _ensure_data_is_cached (set_heap h st) = (Ok tt, set_heap h st).
Proof. intros Hf Hh. by apply (ensure_hit _ f). Qed.

(** X10. A dataset without the category column, which loads all the
    same, makes the listing raise its 400 error and leaves the table in the
    cache: the state is as the cache check left it, and an unfiltered
    search issued next answers from the cached table, reading no file and
    fitting no index. *)
Theorem X10_listing_error_keeps_the_cache `{E : Env} (st st1 : State) (l : loc)
    (d : DataFrame) (keywords : string) :
  uploads st ≠ [] →
  _ensure_data_is_cached st = (Ok tt, st1) →
  df (cache st1) = Some l →
  heap st1 !! l = Some d →
  CATEGORY ∉ columns d →
  get_functional_areas st =
    (Raise (HTTPException 400 MSG_NO_CATEGORY_FILE), st1) ∧
  eval (search_inquiries keywords None) st1 =
    (if empty d then Ok [] else rank (cache st1) keywords d) ∧
  io_log (exec (search_inquiries keywords None) st1) = io_log st1 ∧
  cache (exec (search_inquiries keywords None) st1) = cache st1.
Proof.
  intros Hu He Hd Hl Hno.
  rewrite (areas_run _ _ Hu He), Hd, Hl.
  apply col_pos_None in Hno. unfold get_column. rewrite Hno. simpl.
  split; [done|].
  destruct (ensure_ok_hit _ _ Hu He) as (Hu1 & f & Hf & Hh).
  assert (uploads st1 ≠ []) as Hne by congruence.
  destruct (search_run keywords None st1 st1 l d Hne (ensure_hit _ _ Hf Hh) Hd Hl)
    as (h & Hrun & _).
  unfold eval, exec. rewrite Hrun. done.
Qed.

Lemma X10_witness :
  get_functional_areas dup_state =
    (Raise (HTTPException 400 MSG_NO_CATEGORY_FILE), dup_cached) ∧
  eval (search_inquiries "login" None) dup_cached =
    (if empty dup_table then Ok [] else rank (cache dup_cached) "login" dup_table) ∧
  io_log (exec (search_inquiries "login" None) dup_cached) = io_log dup_cached ∧
  cache (exec (search_inquiries "login" None) dup_cached) = cache dup_cached.
Proof.
  apply (X10_listing_error_keeps_the_cache dup_state dup_cached 0%nat
           dup_table "login"); [done|reflexivity..|].
  apply col_pos_None. reflexivity.
Defined.

(** X11. A search that has answered can be repeated: the same search
    issued right after gets the same answer, from the cache, with no file
    read and no index fit, and leaves the cache entry as it is. *)
Theorem X11_search_is_repeatable `{E : Env} (st : State) (keywords : string)
    (functional_area : option string) (rs : list record) :
  eval (search_inquiries keywords functional_area) st = Ok rs →
  let st2 := exec (search_inquiries keywords functional_area) st in
  eval (search_inquiries keywords functional_area) st2 = Ok rs ∧
  io_log (exec (search_inquiries keywords functional_area) st2) = io_log st2 ∧
  cache (exec (search_inquiries keywords functional_area) st2) = cache st2.
Proof.
  intros (Hu & st1 & l & d & He & Hd & Hl & Hres)%search_ok_inv. simpl.
  destruct (search_run keywords functional_area st st1 l d Hu He Hd Hl)
    as (h & Hrun & Hh).
  destruct (ensure_ok_hit _ _ Hu He) as (Hu1 & f & Hf & Hh1).
  assert (exec (search_inquiries keywords functional_area) st = set_heap h st1)
    as -> by (unfold exec; by rewrite Hrun).
  assert (uploads (set_heap h st1) ≠ []) as Hne by (simpl; congruence).
  destruct (search_run keywords functional_area (set_heap h st1)
              (set_heap h st1) l d Hne (ensure_hit_set_heap _ h _ Hf Hh1) Hd
              (Hh _ _ Hl)) as (h' & Hrun' & _).
  unfold eval, exec. rewrite Hrun'. simpl. by rewrite Hres.
Qed.

Lemma X11_witness :
  let st2 := exec (search_inquiries "login" (Some "Billing")) two_state in
  eval (search_inquiries "login" (Some "Billing")) st2 = Ok [billing_record] ∧
  io_log (exec (search_inquiries "login" (Some "Billing")) st2) = io_log st2 ∧
  cache (exec (search_inquiries "login" (Some "Billing")) st2) = cache st2.
Proof.
  apply (X11_search_is_repeatable two_state "login" (Some "Billing")
           [billing_record]).
  reflexivity.
Defined.

(** X12. After an upload whose bytes were stored as an entry of the
    upload directory, with a change time later than that of the files
    already there, the first read request reads that entry, also when a
    table loaded from the same path was in the cache before: the upload has
    emptied the cache. *)
Theorem X12_first_request_after_upload_reads_it `{E : Env} (st : State)
    (filename entry data : string) (now : Z) (q : Request) :
  Forall (λ f, (ctime f < now)%Z) (uploads st) →
  let latest := path_join UPLOAD_DIR entry in
  let st' := serve q (exec (upload_file filename data now (Stored entry)) st) in
  io_log st' = EvRead latest :: io_log st ∨
  io_log st' = EvFit :: EvRead latest :: io_log st.
Proof.
  intros Hold. simpl.
  pose proof (serving_upload filename entry data now st Hold) as [Hf _].
  destruct (serve_ensure q (exec (upload_file filename data now (Stored entry)) st))
    as (h & -> & _). simpl.
  assert (exec (upload_file filename data now (Stored entry)) st =
          mkState (write_file entry data now (uploads st)) (config st)
            empty_cache (heap st) (io_log st)) as Hst
    by (unfold exec; by rewrite upload_run).
  rewrite Hst in Hf |- *. set (st0 := mkState _ _ _ _ _) in *.
  unfold exec. rewrite (ensure_rebuild st0 _ Hf) by done.
  destruct (rebuild_outcome _ st0) as [r st1] eqn:Hr.
  apply rebuild_outcome_log in Hr. by destruct r.
Qed.

Lemma X12_witness :
  let st' := serve (Search "export" None)
               (exec (upload_file "a.xlsx" "plain" 11 (Stored "a.xlsx"))
                  two_cached) in
  io_log st' = EvRead "uploads/a.xlsx" :: io_log two_cached ∨
  io_log st' = EvFit :: EvRead "uploads/a.xlsx" :: io_log two_cached.
Proof.
  apply (X12_first_request_after_upload_reads_it two_cached "a.xlsx" "a.xlsx"
           "plain" 11 (Search "export" None)); by repeat constructor.
Defined.

Lemma serve_unparsable `{E : Env} (st : State) (f : File) msg (q : Request) :
  latest_file (uploads st) = Some f →
  read_excel (content f) = inl msg →
  cache st = empty_cache →
  uploads (serve q st) = uploads st ∧
  cache (serve q st) = empty_cache ∧
  io_log (serve q st) = EvRead (path_join UPLOAD_DIR (fname f)) :: io_log st.
Proof.
  intros Hf Hr Hc.
  destruct (serve_ensure q st) as (h & -> & _). simpl. unfold exec.
  rewrite (ensure_rebuild st f Hf) by (by rewrite Hc).
  unfold rebuild_outcome. by rewrite Hr.
Qed.

(** X13. A failed load is not remembered. While the newest file is one
    the parser rejects and the cache is empty, every read request reads the
    file again: after any number of requests the cache is still empty and
    the log has grown by one read of that file per request, and by no index
    fit. *)
Theorem X13_unparsable_file_is_read_at_every_request `{E : Env} (st : State)
    (f : File) (msg : string) (qs : list Request) :
  latest_file (uploads st) = Some f →
  read_excel (content f) = inl msg →
  cache st = empty_cache →
  cache (serve_all qs st) = empty_cache ∧
  uploads (serve_all qs st) = uploads st ∧
  io_log (serve_all qs st) =
    (replicate (length qs) (EvRead (path_join UPLOAD_DIR (fname f))) ++
     io_log st)%list.
Proof.
  unfold serve_all. revert st.
  induction qs as [|q qs IH]; intros st Hf Hr Hc; simpl; [done|].
  destruct (serve_unparsable st f msg q Hf Hr Hc) as (Hu & Hc' & Hlog).
  destruct (IH (serve q st)) as (IHc & IHu & IHlog);
    [by rewrite Hu|done|done|].
  split; [done|]. split; [by rewrite IHu|].
  rewrite IHlog, Hlog. generalize (length qs) as n.
  induction n as [|n IHn]; simpl; [done|]. by rewrite IHn.
Qed.

Lemma X13_witness :
  cache (serve_all [Search "login" None; Areas; Search "x" (Some "Auth")]
           junk_state) = empty_cache ∧
  uploads (serve_all [Search "login" None; Areas; Search "x" (Some "Auth")]
             junk_state) = uploads junk_state ∧
  io_log (serve_all [Search "login" None; Areas; Search "x" (Some "Auth")]
            junk_state) =
    (replicate 3 (EvRead "uploads/a.xlsx") ++ io_log junk_state)%list.
Proof.
  apply (X13_unparsable_file_is_read_at_every_request junk_state junk_file
           "File is not a zip file"
           [Search "login" None; Areas; Search "x" (Some "Auth")]);
    reflexivity.
Defined.
